(** * batchflow.monitor: background resource monitors

    A shallow embedding of [batchflow/monitor.py].

    - Monitor instances are Python objects, passed around by reference: they
      live in a heap (a list indexed by address), and the methods [start],
      [fetch] and [stop] update the instance at an address, statement by
      statement, so that an exception leaves the fields as they were at the
      raise.
    - Everything the module reads from outside (the wall clock, the counters
      of the operating system and of the driver, what the sampler process has
      appended to the shared list in the meantime) is an oracle [Env], read at
      the index of the current interaction.
    - The sampler process is not run along with the controller: what it
      does to the shared list shows as [arrivals] at each access of the
      list, and its loop [endless_repeat] is modelled on its own, over the
      answers it gets from the stop queue and from its appends.
    - [process.join()] is taken to return; [function] is taken to return a
      sample.
    - Python floats are idealised as exact rationals ([Q]).
    - [np.linspace] is NumPy's; it is modelled after its implementation
      ([numpy/core/function_base.py]). *)

From Stdlib Require Import QArith Lqa Sorted Ascii String.
From stdpp Require Import gmap strings list sorting.

(** ** Values *)

(** What a metric function returns: a number, or one number per device. *)
Inductive Sample :=
  | Num (q : Q)
  | Multi (l : list Z).

(** The counters [psutil] and [nvidia_smi] expose at one instant. *)
Record OSReading := {
  cpu_percent : Q;
  virtual_memory_used : Z;
  memory_info_rss : nat -> Z;
  memory_info_vms : nat -> Z;
  memory_full_info_uss : nat -> Z;
  utilization_gpu : nat -> Z;
  utilization_memory : nat -> Z;
}.

(** The monitor classes of the module; [PlainMonitor] is the base class
    [ResourceMonitor] itself, which has no [get_usage]. *)
Inductive MonitorClass :=
  | PlainMonitor
  | CPUMonitor
  | MemoryMonitor
  | RSSMonitor
  | VMSMonitor
  | USSMonitor
  | GPUMonitor
  | GPUMemoryMonitor.

Global Instance MonitorClass_eq_dec : EqDecision MonitorClass.
Proof. solve_decision. Defined.

(** [**kwargs] of a monitor: the only keyword a metric of the module reads is
    [gpu_list]. *)
Definition Kwargs := option (list nat).

(** A metric function, called as [function(pid=..., **kwargs)]. *)
Definition MetricFn := option nat -> Kwargs -> OSReading -> Sample.

(** The exceptions of the controller process; [BlockError] stands for what
    the block of a [with] statement may raise. *)
Inductive Exn :=
  | TypeError
  | ValueError
  | KeyError
  | AttributeError
  | BlockError (code : nat).

(** The calls made, in order: of [start], [fetch] and [stop] on the monitor
    at [a], and of its metric function by [fetch]. *)
Inductive Event :=
  | EStart (a : nat)
  | EFetch (a : nat)
  | EStop (a : nat)
  | ECall (a : nat).

(** ** The instance *)

Record ResourceMonitor := {
  cls : MonitorClass;
  function : MetricFn;
  frequency : Q;
  kwargs : Kwargs;
  pid : nat;
  running : bool;
  stop_queue : option (list bool);
  shared_list : option (list Sample);
  process : option bool;
  start_time : option Q;
  prev_time : option Q;
  end_time : option Q;
  ticks : list Q;
  data : list Sample;
}.

Definition set_running (v : bool) (m : ResourceMonitor) : ResourceMonitor :=
  {| cls := cls m; function := function m; frequency := frequency m;
     kwargs := kwargs m; pid := pid m; running := v;
     stop_queue := stop_queue m; shared_list := shared_list m;
     process := process m; start_time := start_time m;
     prev_time := prev_time m; end_time := end_time m;
     ticks := ticks m; data := data m |}.

Definition set_stop_queue (v : option (list bool)) (m : ResourceMonitor) : ResourceMonitor :=
  {| cls := cls m; function := function m; frequency := frequency m;
     kwargs := kwargs m; pid := pid m; running := running m;
     stop_queue := v; shared_list := shared_list m;
     process := process m; start_time := start_time m;
     prev_time := prev_time m; end_time := end_time m;
     ticks := ticks m; data := data m |}.

Definition set_shared_list (v : option (list Sample)) (m : ResourceMonitor) : ResourceMonitor :=
  {| cls := cls m; function := function m; frequency := frequency m;
     kwargs := kwargs m; pid := pid m; running := running m;
     stop_queue := stop_queue m; shared_list := v;
     process := process m; start_time := start_time m;
     prev_time := prev_time m; end_time := end_time m;
     ticks := ticks m; data := data m |}.

Definition set_process (v : option bool) (m : ResourceMonitor) : ResourceMonitor :=
  {| cls := cls m; function := function m; frequency := frequency m;
     kwargs := kwargs m; pid := pid m; running := running m;
     stop_queue := stop_queue m; shared_list := shared_list m;
     process := v; start_time := start_time m;
     prev_time := prev_time m; end_time := end_time m;
     ticks := ticks m; data := data m |}.

Definition set_start_time (v : option Q) (m : ResourceMonitor) : ResourceMonitor :=
  {| cls := cls m; function := function m; frequency := frequency m;
     kwargs := kwargs m; pid := pid m; running := running m;
     stop_queue := stop_queue m; shared_list := shared_list m;
     process := process m; start_time := v;
     prev_time := prev_time m; end_time := end_time m;
     ticks := ticks m; data := data m |}.

Definition set_prev_time (v : option Q) (m : ResourceMonitor) : ResourceMonitor :=
  {| cls := cls m; function := function m; frequency := frequency m;
     kwargs := kwargs m; pid := pid m; running := running m;
     stop_queue := stop_queue m; shared_list := shared_list m;
     process := process m; start_time := start_time m;
     prev_time := v; end_time := end_time m;
     ticks := ticks m; data := data m |}.

Definition set_end_time (v : option Q) (m : ResourceMonitor) : ResourceMonitor :=
  {| cls := cls m; function := function m; frequency := frequency m;
     kwargs := kwargs m; pid := pid m; running := running m;
     stop_queue := stop_queue m; shared_list := shared_list m;
     process := process m; start_time := start_time m;
     prev_time := prev_time m; end_time := v;
     ticks := ticks m; data := data m |}.

Definition set_ticks (v : list Q) (m : ResourceMonitor) : ResourceMonitor :=
  {| cls := cls m; function := function m; frequency := frequency m;
     kwargs := kwargs m; pid := pid m; running := running m;
     stop_queue := stop_queue m; shared_list := shared_list m;
     process := process m; start_time := start_time m;
     prev_time := prev_time m; end_time := end_time m;
     ticks := v; data := data m |}.

Definition set_data (v : list Sample) (m : ResourceMonitor) : ResourceMonitor :=
  {| cls := cls m; function := function m; frequency := frequency m;
     kwargs := kwargs m; pid := pid m; running := running m;
     stop_queue := stop_queue m; shared_list := shared_list m;
     process := process m; start_time := start_time m;
     prev_time := prev_time m; end_time := end_time m;
     ticks := ticks m; data := v |}.

(** ** The world and the monad of the controller process *)

(** The outside, as met at the [n]-th interaction with it: the reading of
    [time.time()], the counters of the system, and what a sampler that is
    alive has appended to its list since the list was last looked at. *)
Record Env := {
  getpid : nat;
  clock : nat -> Q;
  os : nat -> OSReading;
  arrivals : nat -> list Sample;
}.

(** The number of interactions so far, the objects, and the calls made. *)
Record World := {
  now : nat;
  heap : list ResourceMonitor;
  trace : list Event;
}.

(** How a computation ends: with a value, or with an exception; either way
    in the world it has reached. *)
Inductive Res (A : Type) :=
  | Ok (a : A) (w : World)
  | Raise (e : Exn) (w : World).
Arguments Ok {A} a w.
Arguments Raise {A} e w.

Definition world_of {A} (r : Res A) : World :=
  match r with Ok _ w => w | Raise _ w => w end.

Definition M (A : Type) : Type := World -> Res A.

Definition ret {A} (a : A) : M A := fun w => Ok a w.

Definition bind {A B} (m : M A) (k : A -> M B) : M B := fun w =>
  match m w with
  | Ok a w' => k a w'
  | Raise e w' => Raise e w'
  end.

Declare Scope M_scope.
Delimit Scope M_scope with M.
Bind Scope M_scope with M.
Notation "x ← y ; z" := (bind y (fun x => z))
  (at level 20, y at level 100, z at level 200, only parsing) : M_scope.
Notation "x ;; z" := (bind x (fun _ => z))
  (at level 100, z at level 200, only parsing, right associativity) : M_scope.
Local Open Scope M_scope.

Definition raise {A} (e : Exn) : M A := fun w => Raise e w.

Definition advance (w : World) : World :=
  {| now := S (now w); heap := heap w; trace := trace w |}.

Definition log (ev : Event) : M unit := fun w =>
  Ok tt {| now := now w; heap := heap w; trace := trace w ++ [ev] |}.

(** [self.<attr>]: a reference always points to a live object in Python; the
    [None] branch keeps the function total. *)
Definition getobj (a : nat) : M ResourceMonitor := fun w =>
  match heap w !! a with
  | Some m => Ok m w
  | None => Raise AttributeError w
  end.

(** [self.<attr> = v] *)
Definition setobj (a : nat) (f : ResourceMonitor -> ResourceMonitor) : M unit := fun w =>
  match heap w !! a with
  | Some m => Ok tt {| now := now w; heap := <[a := f m]> (heap w); trace := trace w |}
  | None => Raise AttributeError w
  end.

(** A new object. *)
Definition alloc (m : ResourceMonitor) : M nat := fun w =>
  Ok (length (heap w)) {| now := now w; heap := heap w ++ [m]; trace := trace w |}.

(** try: [body] finally: [fin] *)
Definition try_finally {A} (body : M A) (fin : M unit) : M A := fun w =>
  match body w with
  | Ok a w1 =>
      match fin w1 with
      | Ok _ w2 => Ok a w2
      | Raise e w2 => Raise e w2
      end
  | Raise e w1 =>
      match fin w1 with
      | Ok _ w2 => Raise e w2
      | Raise e' w2 => Raise e' w2
      end
  end.

(** for x in xs: [f x] *)
Fixpoint for_each {A} (xs : list A) (f : A -> M unit) : M unit :=
  match xs with
  | [] => ret tt
  | x :: xs' => f x;; for_each xs' f
  end.

(** ** [np.linspace(start, stop, num)] with the default [endpoint=True] *)

(** [arange(0, num)] *)
Definition arange (num : nat) : list Q :=
  map (fun i => inject_Z (Z.of_nat i)) (seq 0 num).

(** [None] is the [ValueError] NumPy raises for a negative [num]. With
    [div = num - 1], the points are [arange(0, num) * step + start] for
    [step = delta / div] when [div > 0], [arange(0, num) * delta + start]
    otherwise, and the last of more than one point is set to [stop]. (The
    separate path NumPy takes for a zero step, dividing first, gives the same
    numbers in exact arithmetic.) *)
Definition linspace (start stop : Q) (num : Z) : option (list Q) :=
  if (num <? 0)%Z then None
  else
    let n := Z.to_nat num in
    let div := (num - 1)%Z in
    let delta := (stop - start)%Q in
    let y :=
      if (0 <? div)%Z
      then map (fun i => i * (delta / inject_Z div) + start)%Q (arange n)
      else map (fun i => i * delta + start)%Q (arange n) in
    Some (if (1 <? num)%Z then take (n - 1) y ++ [stop] else y).

(** ** The metric functions: [get_usage] of each class *)

Section Metrics.

Variable E : Env.

(** [psutil.Process(pid)]: no pid means the calling process. *)
Definition Process (pid : option nat) : nat := default (getpid E) pid.

(** [gpu_list or [0]] *)
Definition gpu_list_or_0 (gpu_list : Kwargs) : list nat :=
  match gpu_list with
  | None | Some [] => [0%nat]
  | Some l => l
  end.

Definition CPUMonitor_get_usage : MetricFn := fun _ _ r =>
  Num (cpu_percent r).

Definition MemoryMonitor_get_usage : MetricFn := fun _ _ r =>
  Num (inject_Z (virtual_memory_used r) / inject_Z (1024 ^ 3)).

Definition RSSMonitor_get_usage : MetricFn := fun pid _ r =>
  Num (inject_Z (memory_info_rss r (Process pid)) / inject_Z (1024 ^ 2)).

Definition VMSMonitor_get_usage : MetricFn := fun pid _ r =>
  Num (inject_Z (memory_info_vms r (Process pid)) / inject_Z (1024 ^ 3)).

Definition USSMonitor_get_usage : MetricFn := fun pid _ r =>
  Num (inject_Z (memory_full_info_uss r (Process pid)) / inject_Z (1024 ^ 3)).

Definition GPUMonitor_get_usage : MetricFn := fun _ gpu_list r =>
  Multi (map (utilization_gpu r) (gpu_list_or_0 gpu_list)).

Definition GPUMemoryMonitor_get_usage : MetricFn := fun _ gpu_list r =>
  Multi (map (utilization_memory r) (gpu_list_or_0 gpu_list)).

(** [self.get_usage]; the base class has none. *)
Definition get_usage (c : MonitorClass) : option MetricFn :=
  match c with
  | PlainMonitor => None
  | CPUMonitor => Some CPUMonitor_get_usage
  | MemoryMonitor => Some MemoryMonitor_get_usage
  | RSSMonitor => Some RSSMonitor_get_usage
  | VMSMonitor => Some VMSMonitor_get_usage
  | USSMonitor => Some USSMonitor_get_usage
  | GPUMonitor => Some GPUMonitor_get_usage
  | GPUMemoryMonitor => Some GPUMemoryMonitor_get_usage
  end.

End Metrics.

(** The class attribute [UNIT]. *)
Definition UNIT (c : MonitorClass) : option string :=
  match c with
  | PlainMonitor => None
  | CPUMonitor | GPUMonitor | GPUMemoryMonitor => Some "%"
  | MemoryMonitor | RSSMonitor | VMSMonitor | USSMonitor => Some "Gb"
  end.

Section Controller.

Variable E : Env.

(** [ResourceMonitor.__init__]; [function or self.get_usage]. *)
Definition init (c : MonitorClass) (fn : option MetricFn) (freq : Q) (kw : Kwargs) : M nat :=
  match (if fn is Some f then Some f else get_usage E c) with
  | None => raise AttributeError
  | Some f =>
      alloc {| cls := c; function := f; frequency := freq; kwargs := kw;
               pid := getpid E; running := false;
               stop_queue := None; shared_list := None; process := None;
               start_time := None; prev_time := None; end_time := None;
               ticks := []; data := [] |}
  end.

(** [time.time()] *)
Definition time_time : M Q := fun w => Ok (clock E (now w)) (advance w).

(** What the proxy of the managed list shows at this access: a sampler that
    is alive has appended [arrivals] since the previous access. *)
Definition sync (a : nat) : M (list Sample) :=
  m ← getobj a;
  match shared_list m with
  | None => raise TypeError
  | Some buf =>
      fun w =>
        let buf' := if process m is Some true then buf ++ arrivals E (now w) else buf in
        match setobj a (set_shared_list (Some buf')) w with
        | Ok _ w' => Ok buf' (advance w')
        | Raise e w' => Raise e w'
        end
  end.

(** [self.function(pid=self.pid, **self.kwargs)] *)
Definition call_function (a : nat) : M Sample :=
  m ← getobj a;
  log (ECall a);;
  fun w => Ok (function m (Some (pid m)) (kwargs m) (os E (now w))) (advance w).

(** [ResourceMonitor.start] *)
Definition start (a : nat) : M unit :=
  log (EStart a);;
  setobj a (set_running true);;
  setobj a (set_shared_list (Some []));;
  setobj a (set_stop_queue (Some []));;
  t ← time_time;
  setobj a (set_start_time (Some t));;
  m ← getobj a;
  setobj a (set_prev_time (start_time m));;
  setobj a (set_process (Some true)).

(** [ResourceMonitor.fetch] *)
Definition fetch (a : nat) : M unit :=
  log (EFetch a);;
  m ← getobj a;
  let n := length (data m) in
  copy ← sync a;
  setobj a (set_data copy);;
  t ← time_time;
  setobj a (set_end_time (Some t));;
  point ← call_function a;
  tick ← time_time;
  m ← getobj a;
  match prev_time m, end_time m with
  | Some p, Some e =>
      match linspace p e (Z.of_nat (length (data m)) - Z.of_nat n) with
      | None => raise ValueError
      | Some stamps =>
          setobj a (set_ticks (ticks m ++ stamps));;
          m ← getobj a;
          setobj a (set_data (data m ++ [point]));;
          buf ← sync a;
          setobj a (set_shared_list (Some (buf ++ [point])));;
          m ← getobj a;
          setobj a (set_ticks (ticks m ++ [tick]));;
          t ← time_time;
          setobj a (set_prev_time (Some t))
      end
  | _, _ => raise TypeError
  end.

(** [ResourceMonitor.stop]: [join] returns once the sampler has seen the stop
    signal and left its loop; what it appended until then is in the list. *)
Definition stop (a : nat) : M unit :=
  log (EStop a);;
  m ← getobj a;
  match stop_queue m with
  | None => raise AttributeError
  | Some q =>
      setobj a (set_stop_queue (Some (q ++ [true])));;
      match process m with
      | None => raise AttributeError
      | Some _ =>
          (if shared_list m is Some _ then sync a;; ret tt else ret tt);;
          setobj a (set_process (Some false));;
          setobj a (set_running false)
      end
  end.


End Controller.

(** ** The alias registry *)

Definition MONITOR_ALIASES_by_class : list (MonitorClass * list string) :=
  [ (MemoryMonitor, ["mmonitor"; "memory"; "memorymonitor"]);
    (CPUMonitor, ["cmonitor"; "cpu"; "cpumonitor"]);
    (RSSMonitor, ["rss"]);
    (VMSMonitor, ["vms"]);
    (USSMonitor, ["uss"]);
    (GPUMonitor, ["gpu"]);
    (GPUMemoryMonitor, ["gpu_memory"]) ].

(** [{alias: monitor for monitor, aliases in ....items() for alias in aliases}]:
    the entries are inserted in order, a later one replacing an earlier one. *)
Definition MONITOR_ALIASES : gmap string MonitorClass :=
  foldl (fun d '(alias, monitor) => <[alias := monitor]> d) ∅
    (flat_map (fun '(monitor, aliases) => map (fun alias => (alias, monitor)) aliases)
       MONITOR_ALIASES_by_class).

(** [str.lower] on ASCII text. *)
Definition lower_ascii (c : ascii) : ascii :=
  let n := nat_of_ascii c in
  if (65 <=? n)%nat && (n <=? 90)%nat then ascii_of_nat (n + 32) else c.

Fixpoint lower (s : string) : string :=
  match s with
  | EmptyString => EmptyString
  | String c s' => String (lower_ascii c) (lower s')
  end.

Definition upper_ascii (c : ascii) : ascii :=
  let n := nat_of_ascii c in
  if (97 <=? n)%nat && (n <=? 122)%nat then ascii_of_nat (n - 32) else c.

Fixpoint upper (s : string) : string :=
  match s with
  | EmptyString => EmptyString
  | String c s' => String (upper_ascii c) (upper s')
  end.

(** [MONITOR_ALIASES[res.lower()]] *)
Definition lookup_alias (res : string) : option MonitorClass :=
  MONITOR_ALIASES !! lower res.

(** ** The scoped session [monitor_resource] *)

(** One element of [resource]: a string, or a monitor instance. *)
Inductive Selector :=
  | Alias (res : string)
  | Instance (a : nat).

(** The argument [resource]: one selector, or a tuple or list of them. *)
Inductive Resource :=
  | One (res : Selector)
  | Many (rs : list Selector).

(** What the generator yields. *)
Inductive Yielded :=
  | YMonitor (a : nat)
  | YMonitors (ms : list nat).

(** The generator suspended at its [yield]. *)
Record Suspended := {
  monitors : list nat;
  yielded : Yielded;
}.

(** [[f(x) for x in xs]] *)
Fixpoint comprehension {A B} (f : A -> M B) (xs : list A) : M (list B) :=
  match xs with
  | [] => ret []
  | x :: xs' => y ← f x; ys ← comprehension f xs'; ret (y :: ys)
  end.

(** [[resource] if not isinstance(resource, (tuple, list)) else resource] *)
Definition selectors (resource : Resource) : list Selector :=
  match resource with
  | One res => [res]
  | Many rs => rs
  end.

(** [monitors[0] if len(monitors) == 1 else monitors] *)
Definition yield_value (ms : list nat) : Yielded :=
  if (length ms =? 1)%nat
  then match ms !! 0%nat with
       | Some m => YMonitor m
       | None => YMonitors ms
       end
  else YMonitors ms.

Section Session.

Variable E : Env.

(** [MONITOR_ALIASES[res.lower()](frequency=frequency, **kwargs)
     if isinstance(res, str) else res] *)
Definition make_monitor (freq : Q) (kw : Kwargs) (res : Selector) : M nat :=
  match res with
  | Alias s =>
      match lookup_alias s with
      | None => raise KeyError
      | Some c => init E c None freq kw
      end
  | Instance a => ret a
  end.

(** The [finally] block. *)
Definition monitor_resource_finally (ms : list nat) : M unit :=
  for_each ms (fun monitor => fetch E monitor;; stop E monitor).

(** The generator run to its [yield], as [__enter__] of the context manager
    does; an exception inside the [try] block runs the [finally] block on
    its way out. *)
Definition monitor_resource (resource : Resource) (freq : Q) (kw : Kwargs) : M Suspended :=
  let resource := selectors resource in
  ms ← comprehension (make_monitor freq kw) resource;
  fun w =>
    match for_each ms (start E) w with
    | Ok _ w1 => Ok {| monitors := ms; yielded := yield_value ms |} w1
    | Raise e w1 => try_finally (raise e) (monitor_resource_finally ms) w1
    end.

(** The generator resumed at its [yield], as [__exit__] does: by [next] when
    the block has returned, by [throw] when it has raised [e]. *)
Definition resume (g : Suspended) (thrown : option Exn) : M unit :=
  try_finally
    (match thrown with None => ret tt | Some e => raise e end)
    (monitor_resource_finally (monitors g)).

(** [with monitor_resource(resource, frequency, **kwargs) as y: block(y)] *)
Definition with_monitor_resource {B} (resource : Resource) (freq : Q) (kw : Kwargs)
    (block : Yielded -> M B) : M B :=
  g ← monitor_resource resource freq kw;
  fun w =>
    match block (yielded g) w with
    | Ok b w1 => (resume g None;; ret b) w1
    | Raise e w1 => (resume g (Some e);; raise e) w1
    end.

End Session.

(** ** The sampler process: [endless_repeat] *)

(** The exceptions that can come out of the body of the [try]: the call of
    [function] and the [append] of its result. *)
Inductive SamplerExn :=
  | BrokenPipeError
  | ConnectionResetError
  | OtherException.

Inductive Attempt :=
  | Appended (x : Sample)
  | Failed (e : SamplerExn).

(** What the sampler meets in its [k]-th iteration: the answer of
    [stop_queue.empty()] and how the body of the [try] goes. *)
Record SamplerEnv := {
  queue_empty : nat -> bool;
  attempt : nat -> Attempt;
}.

Inductive SamplerEvent :=
  | Poll (empty : bool)
  | Append (x : Sample)
  | Swallow (e : SamplerExn)
  | Sleep (seconds : Q).

Inductive Exit :=
  | Returned
  | Propagated (e : SamplerExn)
  | StillRunning.

Record Sampler := {
  exit : Exit;
  buffer : list Sample;
  events : list SamplerEvent;
}.

(** [except (BrokenPipeError, ConnectionResetError)] *)
Definition caught (e : SamplerExn) : bool :=
  match e with
  | BrokenPipeError | ConnectionResetError => true
  | OtherException => false
  end.

(** The loop from its [k]-th test of the condition on; [fuel] bounds the
    number of tests looked at, and [StillRunning] is the loop still going
    after them. *)
Fixpoint endless_repeat (env : SamplerEnv) (frequency_ : Q) (fuel k : nat)
    (shared_list_ : list Sample) (log_ : list SamplerEvent) : Sampler :=
  match fuel with
  | O => {| exit := StillRunning; buffer := shared_list_; events := log_ |}
  | S fuel' =>
      if queue_empty env k
      then
        match attempt env k with
        | Appended x =>
            endless_repeat env frequency_ fuel' (k + 1) (shared_list_ ++ [x])
              (log_ ++ [Poll true; Append x; Sleep frequency_])
        | Failed e =>
            if caught e
            then endless_repeat env frequency_ fuel' (k + 1) shared_list_
                   (log_ ++ [Poll true; Swallow e; Sleep frequency_])
            else {| exit := Propagated e; buffer := shared_list_;
                    events := log_ ++ [Poll true] |}
        end
      else {| exit := Returned; buffer := shared_list_; events := log_ ++ [Poll false] |}
  end.

(** What one turn of the loop leaves in the log and in the list, when its
    exception, if any, is caught. *)
Definition iteration (env : SamplerEnv) (frequency_ : Q) (k : nat) : list SamplerEvent :=
  match attempt env k with
  | Appended x => [Poll true; Append x; Sleep frequency_]
  | Failed e => [Poll true; Swallow e; Sleep frequency_]
  end.

Definition appended (env : SamplerEnv) (k : nat) : list Sample :=
  match attempt env k with
  | Appended x => [x]
  | Failed _ => []
  end.

(** A sampler stopped at its fourth test, whose second append breaks. *)
Definition env_demo : SamplerEnv :=
  {| queue_empty := fun k => (k <? 3)%nat;
     attempt := fun k =>
       if (k =? 1)%nat then Failed BrokenPipeError
       else Appended (Num (inject_Z (Z.of_nat k))) |}.

(** ** Closed forms of the methods, used to state what they do *)

(** The world [n, h, t] with the instance [m] at address [a]. *)
Definition put (n : nat) (h : list ResourceMonitor) (t : list Event) (a : nat)
    (m : ResourceMonitor) : World :=
  {| now := n; heap := <[a := m]> h; trace := t |}.

(** The managed list as the proxy shows it at interaction [n]. *)
Definition view (E : Env) (n : nat) (m : ResourceMonitor) (buf : list Sample) : list Sample :=
  if process m is Some true then buf ++ arrivals E n else buf.

(** The instance after [start] at interaction [n]. *)
Definition started (E : Env) (n : nat) (m : ResourceMonitor) : ResourceMonitor :=
  set_process (Some true)
    (set_prev_time (Some (clock E n))
       (set_start_time (Some (clock E n))
          (set_stop_queue (Some [])
             (set_shared_list (Some []) (set_running true m))))).

(** The point [fetch] computes when it starts at interaction [n]. *)
Definition fetch_point (E : Env) (n : nat) (m : ResourceMonitor) : Sample :=
  function m (Some (pid m)) (kwargs m) (os E (n + 2)).

(** The instance when [fetch], started at interaction [n] on the list [buf],
    reaches the call of [np.linspace]. *)
Definition fetch_copied (E : Env) (n : nat) (m : ResourceMonitor) (buf : list Sample)
    : ResourceMonitor :=
  set_end_time (Some (clock E (n + 1)))
    (set_data (view E n m buf) (set_shared_list (Some (view E n m buf)) m)).

(** The instance after a [fetch] that returns, [stamps] being the result of
    [np.linspace]. *)
Definition fetched (E : Env) (n : nat) (m : ResourceMonitor) (buf : list Sample)
    (stamps : list Q) : ResourceMonitor :=
  let snap := view E n m buf in
  let point := fetch_point E n m in
  set_prev_time (Some (clock E (n + 5)))
    (set_ticks (ticks m ++ stamps ++ [clock E (n + 3)])
       (set_shared_list (Some (view E (n + 4) m snap ++ [point]))
          (set_data (snap ++ [point]) (fetch_copied E n m buf)))).

(** The instance after [stop] at interaction [n]. *)
Definition stopped (E : Env) (n : nat) (m : ResourceMonitor) (q : list bool)
    : ResourceMonitor :=
  set_running false
    (set_process (Some false)
       (set_shared_list (view E n m <$> shared_list m)
          (set_stop_queue (Some (q ++ [true])) m))).

(** The [i]-th of the [num > 1] points of [np.linspace(p, e, num)]. *)
Definition interpolate (p e : Q) (num : Z) (i : nat) : Q :=
  (inject_Z (Z.of_nat i) * ((e - p) / inject_Z (num - 1)) + p)%Q.

(** How a [fetch] can end. *)
Inductive fetch_outcome (E : Env) (a : nat) (w : World) (m : ResourceMonitor)
    : Res unit -> Prop :=
  | fetch_returns buf p stamps :
      shared_list m = Some buf -> prev_time m = Some p ->
      linspace p (clock E (now w + 1))
        (Z.of_nat (length (view E (now w) m buf)) - Z.of_nat (length (data m)))
        = Some stamps ->
      fetch_outcome E a w m
        (Ok tt (put (now w + 6) (heap w) (trace w ++ [EFetch a; ECall a]) a
                  (fetched E (now w) m buf stamps)))
  | fetch_raises_ValueError buf p :
      shared_list m = Some buf -> prev_time m = Some p ->
      (length (view E (now w) m buf) < length (data m))%nat ->
      fetch_outcome E a w m
        (Raise ValueError
           (put (now w + 4) (heap w) (trace w ++ [EFetch a; ECall a]) a
              (fetch_copied E (now w) m buf)))
  | fetch_raises_no_prev_time buf :
      shared_list m = Some buf -> prev_time m = None ->
      fetch_outcome E a w m
        (Raise TypeError
           (put (now w + 4) (heap w) (trace w ++ [EFetch a; ECall a]) a
              (fetch_copied E (now w) m buf)))
  | fetch_raises_no_shared_list :
      shared_list m = None ->
      fetch_outcome E a w m
        (Raise TypeError (put (now w) (heap w) (trace w ++ [EFetch a]) a m)).

(** What is to be seen of a run: the exception it ended with, if any, and
    the instance at an address in the world it left. *)
Definition raised {A} (r : Res A) : option Exn :=
  match r with Ok _ _ => None | Raise e _ => Some e end.

Definition monitor_of {A} (a : nat) (r : Res A) : option ResourceMonitor :=
  heap (world_of r) !! a.

(** The ticks of [m] are in order and none is later than [prev_time],
    which is no later than any reading of the clock still to come. *)
Definition ticks_ok (E : Env) (w : World) (m : ResourceMonitor) : Prop :=
  StronglySorted Qle (ticks m) /\
  exists p, prev_time m = Some p /\
    Forall (fun t => t <= p)%Q (ticks m) /\
    forall j, now w <= j -> (p <= clock E j)%Q.

(** The monitor at [a] has been started and its [data] is not longer than
    its shared list: the [fetch] of the [finally] block will return. *)
Definition drainable (w : World) (a : nat) : Prop :=
  exists m buf p q pr,
    heap w !! a = Some m /\ shared_list m = Some buf /\ prev_time m = Some p /\
    stop_queue m = Some q /\ process m = Some pr /\
    length (data m) <= length buf.

Definition drainableb (w : World) (a : nat) : bool :=
  match heap w !! a with
  | Some m =>
      match shared_list m, prev_time m, stop_queue m, process m with
      | Some buf, Some _, Some _, Some _ => (length (data m) <=? length buf)%nat
      | _, _, _, _ => false
      end
  | None => false
  end.

(** The monitor at [a] is not running. *)
Definition halted (w : World) (a : nat) : Prop :=
  running <$> heap w !! a = Some false.

(** The calls the [finally] block makes on the monitor at [a]. *)
Definition drained (a : nat) : list Event := [EFetch a; ECall a; EStop a].

(** The monitor at [a] is what the selector [res] stands for: the instance
    itself, or a monitor of the class the alias names. *)
Definition selects (w : World) (res : Selector) (a : nat) : Prop :=
  match res with
  | Instance b => a = b
  | Alias s => exists c m, lookup_alias s = Some c /\ heap w !! a = Some m /\ cls m = c
  end.

(** Every object of [w] is still there in [w'], with the class it had. *)
Definition extends (w w' : World) : Prop :=
  forall b m, heap w !! b = Some m ->
    exists m', heap w' !! b = Some m' /\ cls m' = cls m.

(** The selector [res] can be resolved: the alias is in the registry, the
    instance exists. *)
Definition known (w : World) (res : Selector) : Prop :=
  match res with
  | Alias s => is_Some (lookup_alias s)
  | Instance a => a < length (heap w)
  end.

(** The monitor at [a] has no data yet. *)
Definition no_data (w : World) (a : nat) : Prop :=
  exists m, heap w !! a = Some m /\ data m = [].

(** The monitor at [a] has been started and has no data yet. *)
Definition started_no_data (w : World) (a : nat) : Prop :=
  exists m buf p q pr,
    heap w !! a = Some m /\ shared_list m = Some buf /\ prev_time m = Some p /\
    stop_queue m = Some q /\ process m = Some pr /\ data m = [].

Definition is_alias (res : Selector) : Prop :=
  match res with
  | Alias _ => True
  | Instance _ => False
  end.

(** The wall clock never runs backwards. *)
Definition clock_nondecreasing (E : Env) : Prop :=
  forall i j, i <= j -> (clock E i <= clock E j)%Q.

(** Whatever else happens between two calls: [d] further interactions with
    the outside. *)
Definition idle (d : nat) : M unit := fun w =>
  Ok tt {| now := now w + d; heap := heap w; trace := trace w |}.

(** ** Example runs *)

Definition os_demo (i : nat) : OSReading :=
  {| cpu_percent := 0;
     virtual_memory_used := Z.of_nat i * 1024 ^ 3;
     memory_info_rss := fun _ => 0%Z;
     memory_info_vms := fun _ => 0%Z;
     memory_full_info_uss := fun _ => 0%Z;
     utilization_gpu := fun _ => 0%Z;
     utilization_memory := fun _ => 0%Z |}.

(** The sampler gets one sample in before the first look at its list, and
    two before the look at interaction 9. *)
Definition E_busy : Env :=
  {| getpid := 7;
     clock := fun i => inject_Z (Z.of_nat i);
     os := os_demo;
     arrivals := fun i =>
       if (i =? 1)%nat then [Num 10]
       else if (i =? 9)%nat then [Num 20; Num 21]
       else [] |}.

(** The sampler gets one sample in before the first look at its list, and
    none later. *)
Definition E_quiet : Env :=
  {| getpid := 7;
     clock := fun i => inject_Z (Z.of_nat i);
     os := os_demo;
     arrivals := fun i => if (i =? 1)%nat then [Num 10] else [] |}.

Definition w_empty : World := {| now := 0; heap := []; trace := [] |}.

(** [MemoryMonitor()] as [__init__] leaves it. *)
Definition m_fresh : ResourceMonitor :=
  {| cls := MemoryMonitor; function := MemoryMonitor_get_usage;
     frequency := 1 # 2; kwargs := None; pid := 7; running := false;
     stop_queue := None; shared_list := None; process := None;
     start_time := None; prev_time := None; end_time := None;
     ticks := []; data := [] |}.

(** [m = MemoryMonitor(); m.start()] *)
Definition first_start (E : Env) : M nat :=
  (a ← init E MemoryMonitor None (1 # 2) None;
   start E a;; ret a)%M.

(** [m = MemoryMonitor(); m.start(); m.fetch(); m.stop(); m.start()] *)
Definition second_start (E : Env) : M nat :=
  (a ← first_start E;
   fetch E a;; stop E a;; start E a;; ret a)%M.

(** [m = MemoryMonitor(); m.start(); m.fetch(); m.stop()] *)
Definition one_run (E : Env) : M unit :=
  (a ← first_start E;
   fetch E a;; stop E a)%M.

(** [m = MemoryMonitor(); m.start(); m.fetch(); m.stop(); m.start();
     m.fetch()] *)
Definition two_runs (E : Env) : M unit :=
  (a ← second_start E;
   fetch E a)%M.

(** [with monitor_resource(['memory', 'CPU']) as ms: raise BlockError(1)] *)
Definition failing_session (E : Env) : M unit :=
  with_monitor_resource E (Many [Alias "memory"; Alias "CPU"]) (1 # 2) None
    (fun _ => raise (BlockError 1)).

(** [m = MemoryMonitor()], then twice [with monitor_resource(m): pass] *)
Definition two_sessions (E : Env) : M unit :=
  (a ← init E MemoryMonitor None (1 # 2) None;
   with_monitor_resource E (One (Instance a)) (1 # 2) None (fun _ => ret tt);;
   with_monitor_resource E (One (Instance a)) (1 # 2) None (fun _ => ret tt))%M.

(** ** Further parts of the module *)

(** One call on a monitor, or [d] interactions of other code. *)
Inductive Call :=
  | CStart
  | CFetch
  | CStop
  | CIdle (d : nat).

Definition call (E : Env) (a : nat) (c : Call) : M unit :=
  match c with
  | CStart => start E a
  | CFetch => fetch E a
  | CStop => stop E a
  | CIdle d => idle d
  end.

Definition is_start (c : Call) : bool :=
  match c with
  | CStart => true
  | _ => false
  end.

(** [monitor_memory(frequency)] *)
Definition monitor_memory (E : Env) (freq : Q) : M Suspended :=
  monitor_resource E (One (Alias "memory")) freq None.

(** [monitor_cpu(frequency)] *)
Definition monitor_cpu (E : Env) (freq : Q) : M Suspended :=
  monitor_resource E (One (Alias "cpu")) freq None.

(** [monitor_gpu(frequency, gpu_list)] *)
Definition monitor_gpu (E : Env) (freq : Q) (gpu_list : Kwargs) : M Suspended :=
  monitor_resource E (One (Alias "gpu")) freq gpu_list.

(** The dict comprehension that turns the table of aliases by class into the
    registry, for any table. *)
Definition invert_aliases (table : list (MonitorClass * list string))
    : gmap string MonitorClass :=
  foldl (fun d '(alias, monitor) => <[alias := monitor]> d) ∅
    (flat_map (fun '(monitor, aliases) => map (fun alias => (alias, monitor)) aliases)
       table).

(** [self.__class__.__name__] *)
Definition class_name (c : MonitorClass) : string :=
  match c with
  | PlainMonitor => "ResourceMonitor"
  | CPUMonitor => "CPUMonitor"
  | MemoryMonitor => "MemoryMonitor"
  | RSSMonitor => "RSSMonitor"
  | VMSMonitor => "VMSMonitor"
  | USSMonitor => "USSMonitor"
  | GPUMonitor => "GPUMonitor"
  | GPUMemoryMonitor => "GPUMemoryMonitor"
  end.

(** What [visualize] hands to the plotting library. *)
Record Figure := {
  plot_x : list Q;
  plot_y : list Sample;
  title : string;
  xlabel : string;
  ylabel : string;
}.

Inductive PlotExn :=
  | Plot_IndexError
  | Plot_ValueError
  | Plot_AttributeError.

(** [ResourceMonitor.visualize]: [self.ticks[0]] needs a first tick, the
    plotting library refuses abscissas and ordinates of different lengths,
    and [self.UNIT] is an attribute of the subclasses only. *)
Definition visualize (m : ResourceMonitor) : PlotExn + Figure :=
  match ticks m !! 0%nat with
  | None => inl Plot_IndexError
  | Some t0 =>
      let x := map (fun t => t - t0)%Q (ticks m) in
      if (length x =? length (data m))%nat
      then
        match UNIT (cls m) with
        | None => inl Plot_AttributeError
        | Some unit_ =>
            inr {| plot_x := x; plot_y := data m; title := class_name (cls m);
                   xlabel := "Time, s"; ylabel := unit_ |}
        end
      else inl Plot_ValueError
  end.

(** The monitor at [a] is as [__init__] leaves one: not started, no data,
    no ticks. *)
Definition new_monitor (w : World) (a : nat) : Prop :=
  exists m, heap w !! a = Some m /\ data m = [] /\ ticks m = [].

(** The selector is a string that is not in the registry. *)
Definition unknown_alias (res : Selector) : Prop :=
  exists s, res = Alias s /\ lookup_alias s = None.

(** The selector is a string that is in the registry. *)
Definition known_alias (res : Selector) : Prop :=
  exists s, res = Alias s /\ is_Some (lookup_alias s).

(** From [w] to [w'] no call was made and nothing outside was looked at;
    objects may have been created. *)
Definition quiet (w w' : World) : Prop :=
  trace w' = trace w /\ now w' = now w /\ heap w `prefix_of` heap w'.

(** The monitor at [a] has been started, and its [data] is part of its
    shared list, in the same order. *)
Definition in_sync (w : World) (a : nat) : Prop :=
  exists m buf p q pr,
    heap w !! a = Some m /\ shared_list m = Some buf /\ prev_time m = Some p /\
    stop_queue m = Some q /\ process m = Some pr /\
    data m `sublist_of` buf.

Definition is_fetch (c : Call) : bool :=
  match c with
  | CFetch => true
  | _ => false
  end.

(** A sampler whose third call of the function fails for good. *)
Definition env_broken : SamplerEnv :=
  {| queue_empty := fun _ => true;
     attempt := fun k =>
       if (k =? 2)%nat then Failed OtherException
       else Appended (Num (inject_Z (Z.of_nat k))) |}.

(** * Properties *)

Local Open Scope M_scope.

(** ** The primitives on a world in the form [put] *)

Lemma put_id w a m :
  heap w !! a = Some m -> w = put (now w) (heap w) (trace w) a m.
Proof.
  intros H. destruct w as [n h t]. unfold put. simpl in *.
  by rewrite list_insert_id.
Qed.

Lemma getobj_put n h t a m :
  a < length h -> getobj a (put n h t a m) = Ok m (put n h t a m).
Proof.
  intros H. unfold getobj, put. simpl. by rewrite list_lookup_insert_eq.
Qed.

Lemma setobj_put n h t a m f :
  a < length h -> setobj a f (put n h t a m) = Ok tt (put n h t a (f m)).
Proof.
  intros H. unfold setobj, put. simpl.
  by rewrite list_lookup_insert_eq, list_insert_insert_eq.
Qed.

Lemma log_put n h t a m ev :
  log ev (put n h t a m) = Ok tt (put n h (t ++ [ev]) a m).
Proof. reflexivity. Qed.

Lemma time_time_put E n h t a m :
  time_time E (put n h t a m) = Ok (clock E n) (put (S n) h t a m).
Proof. reflexivity. Qed.

Lemma bind_ok {A B} (c : M A) (k : A -> M B) w x w' :
  c w = Ok x w' -> bind c k w = k x w'.
Proof. intros H. unfold bind. by rewrite H. Qed.

Lemma bind_raise {A B} (c : M A) (k : A -> M B) w e w' :
  c w = Raise e w' -> bind c k w = Raise e w'.
Proof. intros H. unfold bind. by rewrite H. Qed.

Lemma sync_put E n h t a m buf :
  a < length h -> shared_list m = Some buf ->
  sync E a (put n h t a m)
  = Ok (view E n m buf) (put (S n) h t a (set_shared_list (Some (view E n m buf)) m)).
Proof.
  intros Ha Hb. unfold sync.
  rewrite (bind_ok _ _ _ _ _ (getobj_put n h t a m Ha)), Hb.
  by rewrite setobj_put.
Qed.

Lemma sync_put_None E n h t a m :
  a < length h -> shared_list m = None ->
  sync E a (put n h t a m) = Raise TypeError (put n h t a m).
Proof.
  intros Ha Hb. unfold sync.
  by rewrite (bind_ok _ _ _ _ _ (getobj_put n h t a m Ha)), Hb.
Qed.

Lemma call_function_put E n h t a m :
  a < length h ->
  call_function E a (put n h t a m)
  = Ok (function m (Some (pid m)) (kwargs m) (os E n)) (put (S n) h (t ++ [ECall a]) a m).
Proof.
  intros Ha. unfold call_function.
  by rewrite (bind_ok _ _ _ _ _ (getobj_put n h t a m Ha)).
Qed.

(** One statement of a method, run on a world in the form [put]. *)
Ltac step :=
  first
    [ erewrite bind_ok by (first
        [ apply getobj_put | apply setobj_put | apply log_put
        | apply time_time_put | apply call_function_put
        | eapply sync_put; [ | first [ eassumption | reflexivity ] ] ];
        eassumption)
    | rewrite setobj_put by assumption
    | rewrite getobj_put by assumption ];
  cbv beta.

Lemma start_put E n h t a m :
  a < length h ->
  start E a (put n h t a m) = Ok tt (put (S n) h (t ++ [EStart a]) a (started E n m)).
Proof.
  intros Ha. unfold start. repeat step. reflexivity.
Qed.

Ltac succs := rewrite ?Nat.add_succ_r, ?Nat.add_0_r in *.

Lemma fetch_put_ok E n h t a m buf p stamps :
  a < length h -> shared_list m = Some buf -> prev_time m = Some p ->
  linspace p (clock E (n + 1))
    (Z.of_nat (length (view E n m buf)) - Z.of_nat (length (data m))) = Some stamps ->
  fetch E a (put n h t a m)
  = Ok tt (put (n + 6) h (t ++ [EFetch a; ECall a]) a (fetched E n m buf stamps)).
Proof.
  intros Ha Hb Hp Hl. unfold fetch. do 9 step.
  cbn [prev_time end_time set_end_time set_data set_shared_list data].
  succs. rewrite Hp, Hl. repeat step.
  cbn [shared_list set_data set_ticks set_end_time set_shared_list].
  repeat step.
  unfold fetched, fetch_copied, fetch_point. succs. cbn.
  rewrite <- !app_assoc. reflexivity.
Qed.

(** ** [np.linspace] *)

Lemma linspace_negative p e num :
  (num < 0)%Z -> linspace p e num = None.
Proof.
  intros H. unfold linspace.
  destruct (Z.ltb_spec num 0) as [_|]; [done | lia].
Qed.

Lemma linspace_length p e num :
  (0 <= num)%Z ->
  exists stamps, linspace p e num = Some stamps /\ length stamps = Z.to_nat num.
Proof.
  intros H. unfold linspace.
  destruct (Z.ltb_spec num 0) as [|_]; [lia |].
  eexists; split; [reflexivity |].
  destruct (Z.ltb_spec 1 num), (Z.ltb_spec 0 (num - 1));
    rewrite ?length_app, ?length_take, ?length_map; unfold arange;
    rewrite ?length_map, ?length_seq; simpl; lia.
Qed.

Lemma linspace_Some p e num stamps :
  linspace p e num = Some stamps -> (0 <= num)%Z /\ length stamps = Z.to_nat num.
Proof.
  intros H. destruct (Z.lt_ge_cases num 0) as [Hn|Hn].
  - by rewrite linspace_negative in H.
  - split; [done |].
    destruct (linspace_length p e num Hn) as (s & Hs & Hlen). congruence.
Qed.

Lemma linspace_many p e num :
  (1 < num)%Z ->
  linspace p e num
  = Some (map (interpolate p e num) (seq 0 (Z.to_nat num - 1)) ++ [e]).
Proof.
  intros H. unfold linspace.
  destruct (Z.ltb_spec num 0) as [|_]; [lia |].
  destruct (Z.ltb_spec 1 num) as [_|]; [| lia].
  destruct (Z.ltb_spec 0 (num - 1)) as [_|]; [| lia].
  unfold arange. rewrite map_map, firstn_map, take_seq.
  by rewrite Nat.min_l by lia.
Qed.

Lemma linspace_one p e :
  linspace p e 1 = Some [(0 * (e - p) + p)%Q].
Proof. reflexivity. Qed.

Lemma linspace_zero p e :
  linspace p e 0 = Some [].
Proof. reflexivity. Qed.

Lemma interpolate_mono p e num i j :
  (1 < num)%Z -> (p <= e)%Q -> i <= j ->
  (interpolate p e num i <= interpolate p e num j)%Q.
Proof.
  intros Hn Hpe Hij. unfold interpolate.
  apply Qplus_le_l, Qmult_le_compat_r.
  - rewrite <- Zle_Qle. lia.
  - apply Qle_shift_div_l.
    + replace 0%Q with (inject_Z 0) by reflexivity. rewrite <- Zlt_Qlt. lia.
    + rewrite Qmult_0_l. Lqa.lra.
Qed.

Lemma interpolate_first p e num :
  (interpolate p e num 0 == p)%Q.
Proof.
  unfold interpolate. change (inject_Z (Z.of_nat 0)) with 0%Q.
  by rewrite Qmult_0_l, Qplus_0_l.
Qed.

Lemma interpolate_last p e num :
  (1 < num)%Z -> (interpolate p e num (Z.to_nat num - 1) == e)%Q.
Proof.
  intros Hn. unfold interpolate.
  replace (Z.of_nat (Z.to_nat num - 1)) with (num - 1)%Z by lia.
  assert (~ inject_Z (num - 1) == 0)%Q.
  { replace 0%Q with (inject_Z 0) by reflexivity. rewrite inject_Z_injective. lia. }
  field. done.
Qed.

Lemma interpolate_bounds p e num i :
  (1 < num)%Z -> (p <= e)%Q -> i <= Z.to_nat num - 1 ->
  (p <= interpolate p e num i /\ interpolate p e num i <= e)%Q.
Proof.
  intros Hn Hpe Hi. split.
  - rewrite <- (interpolate_first p e num) at 1.
    apply interpolate_mono; [done | done | lia].
  - rewrite <- (interpolate_last p e num Hn) at 2.
    by apply interpolate_mono.
Qed.

Global Instance Qle_transitive : Transitive Qle.
Proof. intros x y z. apply Qle_trans. Qed.

Lemma StronglySorted_interpolate p e num a n :
  (1 < num)%Z -> (p <= e)%Q ->
  StronglySorted Qle (map (interpolate p e num) (seq a n)).
Proof.
  intros Hn Hpe. revert a. induction n as [|n IH]; intros a; simpl.
  - constructor.
  - constructor; [apply IH |].
    apply Forall_forall. intros x Hx.
    apply list_elem_of_In, in_map_iff in Hx as (j & <- & Hj).
    apply in_seq in Hj. apply interpolate_mono; [done | done | lia].
Qed.

(** The points of [np.linspace] are non-decreasing and lie between its two
    ends, whenever the ends are in order. *)
Lemma linspace_sorted p e num stamps :
  (p <= e)%Q -> linspace p e num = Some stamps ->
  StronglySorted Qle stamps /\ Forall (fun t => p <= t /\ t <= e)%Q stamps.
Proof.
  intros Hpe H.
  destruct (linspace_Some _ _ _ _ H) as [Hn _].
  destruct (Z.eq_dec num 0%Z) as [->|]; [| destruct (Z.eq_dec num 1%Z) as [->|]].
  - rewrite linspace_zero in H. injection H as <-. split; constructor.
  - rewrite linspace_one in H. injection H as <-.
    split; repeat constructor; Lqa.lra.
  - assert (1 < num)%Z as Hnum by lia.
    rewrite (linspace_many _ _ _ Hnum) in H. injection H as <-.
    assert (Forall (fun t => p <= t /\ t <= e)%Q
              (map (interpolate p e num) (seq 0 (Z.to_nat num - 1)))) as HF.
    { apply Forall_forall. intros x Hx.
      apply list_elem_of_In, in_map_iff in Hx as (j & <- & Hj).
      apply in_seq in Hj. apply interpolate_bounds; [done | done | lia]. }
    split.
    + apply StronglySorted_app_2.
      * intros x1 x2 Hx1 Hx2. apply list_elem_of_singleton in Hx2 as ->.
        rewrite Forall_forall in HF. by apply HF.
      * by apply StronglySorted_interpolate.
      * repeat constructor.
    + apply Forall_app. split; [done |]. repeat constructor; [done | Lqa.lra].
Qed.

(** ** [fetch], [start] and [stop] in closed form *)

Lemma fetch_put_ValueError E n h t a m buf p :
  a < length h -> shared_list m = Some buf -> prev_time m = Some p ->
  linspace p (clock E (n + 1))
    (Z.of_nat (length (view E n m buf)) - Z.of_nat (length (data m))) = None ->
  fetch E a (put n h t a m)
  = Raise ValueError (put (n + 4) h (t ++ [EFetch a; ECall a]) a (fetch_copied E n m buf)).
Proof.
  intros Ha Hb Hp Hl. unfold fetch. do 9 step.
  cbn [prev_time end_time set_end_time set_data set_shared_list data].
  succs. rewrite Hp, Hl. unfold fetch_copied. succs.
  rewrite <- !app_assoc. reflexivity.
Qed.

Lemma fetch_put_no_prev_time E n h t a m buf :
  a < length h -> shared_list m = Some buf -> prev_time m = None ->
  fetch E a (put n h t a m)
  = Raise TypeError (put (n + 4) h (t ++ [EFetch a; ECall a]) a (fetch_copied E n m buf)).
Proof.
  intros Ha Hb Hp. unfold fetch. do 9 step.
  cbn [prev_time end_time set_end_time set_data set_shared_list data].
  succs. rewrite Hp. unfold fetch_copied. succs.
  rewrite <- !app_assoc. reflexivity.
Qed.

Lemma fetch_put_no_shared_list E n h t a m :
  a < length h -> shared_list m = None ->
  fetch E a (put n h t a m) = Raise TypeError (put n h (t ++ [EFetch a]) a m).
Proof.
  intros Ha Hb. unfold fetch. do 2 step.
  by rewrite (bind_raise _ _ _ _ _ (sync_put_None E _ _ _ _ _ Ha Hb)).
Qed.

Lemma fetch_dangling E a w :
  heap w !! a = None ->
  fetch E a w
  = Raise AttributeError {| now := now w; heap := heap w; trace := trace w ++ [EFetch a] |}.
Proof.
  intros H. unfold fetch, bind, log, getobj. simpl. by rewrite H.
Qed.

Lemma stop_put E n h t a m q pr buf :
  a < length h -> stop_queue m = Some q -> process m = Some pr ->
  shared_list m = Some buf ->
  stop E a (put n h t a m)
  = Ok tt (put (n + 1) h (t ++ [EStop a]) a (stopped E n m q)).
Proof.
  intros Ha Hq Hp Hb. unfold stop. do 2 step. rewrite Hq. step. rewrite Hp, Hb.
  erewrite (bind_ok (bind _ _)); cycle 1.
  { erewrite bind_ok; [reflexivity |]. by eapply sync_put. }
  step. rewrite setobj_put by done.
  unfold stopped, view. rewrite Hb. succs. reflexivity.
Qed.

(** The same on any world that has [m] at [a]. *)

Lemma start_at E a w m :
  heap w !! a = Some m ->
  start E a w
  = Ok tt (put (now w + 1) (heap w) (trace w ++ [EStart a]) a (started E (now w) m)).
Proof.
  intros H. rewrite (put_id w a m H) at 1.
  rewrite start_put by eauto using lookup_lt_Some. by succs.
Qed.

Lemma lookup_put n h t a m :
  a < length h -> heap (put n h t a m) !! a = Some m.
Proof. intros H. by apply list_lookup_insert_eq. Qed.

Lemma lookup_put_ne n h t a b m :
  a ≠ b -> heap (put n h t a m) !! b = h !! b.
Proof. intros H. by apply list_lookup_insert_ne. Qed.

Lemma fetch_cases E a w m :
  heap w !! a = Some m -> fetch_outcome E a w m (fetch E a w).
Proof.
  intros H. pose proof (lookup_lt_Some _ _ _ H) as Ha.
  rewrite (put_id w a m H) at 2.
  destruct (shared_list m) as [buf|] eqn:Hb.
  - destruct (prev_time m) as [p|] eqn:Hp.
    + destruct (linspace p (clock E (now w + 1))
        (Z.of_nat (length (view E (now w) m buf)) - Z.of_nat (length (data m))))
        as [stamps|] eqn:Hl.
      * rewrite (fetch_put_ok E _ _ _ _ _ buf p stamps) by done.
        by eapply fetch_returns.
      * rewrite (fetch_put_ValueError E _ _ _ _ _ buf p) by done.
        eapply fetch_raises_ValueError; [done | done |].
        destruct (Z.lt_ge_cases
          (Z.of_nat (length (view E (now w) m buf)) - Z.of_nat (length (data m))) 0)
          as [Hneg|Hpos]; [lia |].
        destruct (linspace_length p (clock E (now w + 1)) _ Hpos) as (s & Hs & _).
        congruence.
    + rewrite (fetch_put_no_prev_time E _ _ _ _ _ buf) by done.
      by eapply fetch_raises_no_prev_time.
  - rewrite fetch_put_no_shared_list by done.
    by apply fetch_raises_no_shared_list.
Qed.

Lemma fetch_Ok_inv E a w m w' :
  heap w !! a = Some m -> fetch E a w = Ok tt w' ->
  exists buf p stamps,
    shared_list m = Some buf /\ prev_time m = Some p /\
    linspace p (clock E (now w + 1))
      (Z.of_nat (length (view E (now w) m buf)) - Z.of_nat (length (data m)))
      = Some stamps /\
    w' = put (now w + 6) (heap w) (trace w ++ [EFetch a; ECall a]) a
           (fetched E (now w) m buf stamps).
Proof.
  intros H Hf. destruct (fetch_cases E a w m H); try discriminate.
  injection Hf as <-. by exists buf, p, stamps.
Qed.

Lemma fetch_returns_at E a w m buf p :
  heap w !! a = Some m -> shared_list m = Some buf -> prev_time m = Some p ->
  length (data m) <= length (view E (now w) m buf) ->
  exists stamps,
    linspace p (clock E (now w + 1))
      (Z.of_nat (length (view E (now w) m buf)) - Z.of_nat (length (data m)))
      = Some stamps /\
    fetch E a w
    = Ok tt (put (now w + 6) (heap w) (trace w ++ [EFetch a; ECall a]) a
               (fetched E (now w) m buf stamps)).
Proof.
  intros H Hb Hp Hlen.
  destruct (linspace_length p (clock E (now w + 1))
    (Z.of_nat (length (view E (now w) m buf)) - Z.of_nat (length (data m))))
    as (stamps & Hs & _); [lia |].
  exists stamps. split; [done |].
  rewrite (put_id w a m H) at 1.
  apply (fetch_put_ok E _ _ _ _ _ buf p); eauto using lookup_lt_Some.
Qed.

(** ** The Series after [fetch] *)

(** C1. When [data] and [ticks] have the same length before [fetch] and
    [fetch] returns, they have the same length after it: [data] is the copy
    of the shared list plus the one point computed by [fetch], and [ticks]
    has grown by the points of [np.linspace], as many as the copy is longer
    than the previous [data], plus one final tick. *)
Theorem fetch_equal_length E a w m w' :
  heap w !! a = Some m ->
  length (data m) = length (ticks m) ->
  fetch E a w = Ok tt w' ->
  exists m' buf p stamps,
    let copy := view E (now w) m buf in
    heap w' !! a = Some m' /\
    length (data m') = length (ticks m') /\
    shared_list m = Some buf /\
    prev_time m = Some p /\
    linspace p (clock E (now w + 1))
      (Z.of_nat (length copy) - Z.of_nat (length (data m))) = Some stamps /\
    length stamps = length copy - length (data m) /\
    ticks m' = ticks m ++ stamps ++ [clock E (now w + 3)] /\
    data m' = copy ++ [fetch_point E (now w) m].
Proof.
  intros H Hlen Hf.
  destruct (fetch_Ok_inv E a w m w' H Hf) as (buf & p & stamps & Hb & Hp & Hl & ->).
  exists (fetched E (now w) m buf stamps), buf, p, stamps. cbn zeta.
  destruct (linspace_Some _ _ _ _ Hl) as [Hnum Hs].
  split; [apply lookup_put; eauto using lookup_lt_Some |].
  repeat split; try done; [| lia].
  cbn. rewrite !length_app. simpl. lia.
Qed.

Lemma fetch_equal_length_witness :
  exists m' stamps,
    heap (world_of ((a ← first_start E_busy; fetch E_busy a) w_empty)) !! 0%nat = Some m' /\
    length (data m') = length (ticks m') /\
    length stamps = 1%nat /\
    ticks m' = [] ++ stamps ++ [clock E_busy 4] /\
    data m' = [Num 10] ++ [Num (inject_Z (3 * 1024 ^ 3) / inject_Z (1024 ^ 3))].
Proof.
  assert (heap (world_of (first_start E_busy w_empty)) !! 0%nat
          = Some (started E_busy 0 m_fresh)) as H1 by (vm_compute; reflexivity).
  assert (fetch E_busy 0 (world_of (first_start E_busy w_empty))
          = Ok tt (world_of ((a ← first_start E_busy; fetch E_busy a) w_empty)))
    as H2 by (vm_compute; reflexivity).
  destruct (fetch_equal_length E_busy 0 _ _ _ H1 eq_refl H2)
    as (m' & buf & p & stamps & Hm & Hlen & Hb & Hp & Hl & Hs & Ht & Hd).
  injection Hb as <-.
  exists m', stamps. split_and!; assumption.
Defined.

Lemma linspace_lookup p e num stamps i t :
  linspace p e num = Some stamps -> stamps !! i = Some t ->
  (t == if (1 <? num)%Z then interpolate p e num i else p)%Q.
Proof.
  intros Hl Hi.
  destruct (linspace_Some _ _ _ _ Hl) as [Hn Hlen].
  pose proof (lookup_lt_Some _ _ _ Hi) as Hlt.
  destruct (Z.ltb_spec 1 num) as [Hnum|Hnum].
  - rewrite (linspace_many _ _ _ Hnum) in Hl. injection Hl as <-.
    destruct (decide (i < Z.to_nat num - 1)) as [Hlt'|Hge].
    + rewrite lookup_app_l in Hi by (by rewrite length_map, length_seq).
      change (map ?f ?l) with (f <$> l) in Hi.
      rewrite list_lookup_fmap, lookup_seq_lt in Hi by done.
      injection Hi as <-. reflexivity.
    + rewrite length_app, length_map, length_seq in Hlt. simpl in Hlt.
      assert (i = Z.to_nat num - 1) as -> by lia.
      rewrite lookup_app_r in Hi by (rewrite length_map, length_seq; lia).
      rewrite length_map, length_seq, Nat.sub_diag in Hi. injection Hi as <-.
      symmetry. by apply interpolate_last.
  - assert (num = 0 \/ num = 1)%Z as [-> | ->] by lia.
    + rewrite linspace_zero in Hl. injection Hl as <-. done.
    + rewrite linspace_one in Hl. injection Hl as <-.
      destruct i; [| done]. injection Hi as <-. Lqa.lra.
Qed.

(** C3. The code at [start], [fetch], [stop], then [start] and [fetch]
    again: the two samples of the first run are gone from [data], which
    holds the list of the second run only, while the two ticks of the first
    run are still in [ticks]. *)
Theorem restart_discards_data :
  raised (one_run E_busy w_empty) = None /\
  data <$> monitor_of 0 (one_run E_busy w_empty)
    = Some [Num 10; MemoryMonitor_get_usage None None (os_demo 3)] /\
  ticks <$> monitor_of 0 (one_run E_busy w_empty) = Some [0; 4]%Q /\
  raised (two_runs E_busy w_empty) = None /\
  data <$> monitor_of 0 (two_runs E_busy w_empty)
    = Some [Num 20; Num 21; MemoryMonitor_get_usage None None (os_demo 11)] /\
  ticks <$> monitor_of 0 (two_runs E_busy w_empty) = Some [0; 4; 12]%Q.
Proof.
  split_and!; vm_compute; reflexivity.
Qed.

(** ** What [fetch] does *)

(** C5. The code at [fetch] on a running monitor that was restarted after a
    first run, before the new sampler has appended anything: the copy of the
    new list is shorter than [data], [np.linspace] raises [ValueError], and
    no point is appended to [data], to the shared list or to [ticks], nor is
    a new [prev_time] recorded. *)
Theorem fetch_after_restart_raises :
  raised (second_start E_quiet w_empty) = None /\
  running <$> monitor_of 0 (second_start E_quiet w_empty) = Some true /\
  shared_list <$> monitor_of 0 (second_start E_quiet w_empty) = Some (Some []) /\
  data <$> monitor_of 0 (second_start E_quiet w_empty)
    = Some [Num 10; MemoryMonitor_get_usage None None (os_demo 3)] /\
  raised (two_runs E_quiet w_empty) = Some ValueError /\
  data <$> monitor_of 0 (two_runs E_quiet w_empty) = Some [] /\
  shared_list <$> monitor_of 0 (two_runs E_quiet w_empty) = Some (Some []) /\
  ticks <$> monitor_of 0 (two_runs E_quiet w_empty)
    = ticks <$> monitor_of 0 (second_start E_quiet w_empty) /\
  prev_time <$> monitor_of 0 (two_runs E_quiet w_empty)
    = prev_time <$> monitor_of 0 (second_start E_quiet w_empty).
Proof.
  split_and!; vm_compute; reflexivity.
Qed.



(** ** The timestamps are in order *)

Lemma fetched_ticks_ok E w m buf p stamps :
  clock_nondecreasing E ->
  ticks_ok E w m -> prev_time m = Some p ->
  linspace p (clock E (now w + 1))
    (Z.of_nat (length (view E (now w) m buf)) - Z.of_nat (length (data m)))
    = Some stamps ->
  forall h t a,
    ticks_ok E (put (now w + 6) h t a (fetched E (now w) m buf stamps))
      (fetched E (now w) m buf stamps).
Proof.
  intros Hclock (Hsorted & p' & Hp' & Hle & Hfuture) Hp Hl h t a.
  assert (p' = p) as -> by congruence.
  assert (p <= clock E (now w + 1))%Q as Hpe by (apply Hfuture; lia).
  destruct (linspace_sorted _ _ _ _ Hpe Hl) as [Hs Hbounds].
  rewrite Forall_forall in Hle, Hbounds.
  assert (forall x, x ∈ stamps ++ [clock E (now w + 3)] ->
            p <= x /\ x <= clock E (now w + 3))%Q as Hnew.
  { intros x [Hx | ->%list_elem_of_singleton]%elem_of_app.
    - destruct (Hbounds x Hx) as [? ?]. split; [done |].
      etrans; [done |]. apply Hclock. lia.
    - split; [apply Hfuture; lia | apply Qle_refl]. }
  split; cbn.
  - apply StronglySorted_app_2; [| done |].
    + intros x1 x2 Hx1 Hx2. etrans; [by apply Hle |]. by apply Hnew.
    + apply StronglySorted_app_2; [| done | repeat constructor].
      intros x1 x2 Hx1 ->%list_elem_of_singleton.
      apply Hnew, elem_of_app. by left.
  - exists (clock E (now w + 5)). split; [done |]. split.
    + apply Forall_app. split; apply Forall_forall; intros x Hx.
      * etrans; [by apply Hle |]. apply Hfuture. lia.
      * etrans; [by apply Hnew |]. apply Hclock. lia.
    + intros j Hj. apply Hclock. lia.
Qed.

Lemma ticks_ok_later E n n' h h' t t' a a' m m' :
  ticks m' = ticks m -> prev_time m' = prev_time m -> n <= n' ->
  ticks_ok E (put n h t a m) m -> ticks_ok E (put n' h' t' a' m') m'.
Proof.
  intros Ht Hp Hn (Hsorted & p & Hp' & Hle & Hfuture).
  unfold ticks_ok. rewrite Ht, Hp. split; [done |].
  exists p. split_and!; [done | done |].
  intros j Hj. apply Hfuture. simpl in *. lia.
Qed.

(** Whichever way [fetch] ends, it leaves the ticks in order. *)
Lemma fetch_ticks_ok E a w m :
  clock_nondecreasing E ->
  heap w !! a = Some m -> ticks_ok E w m ->
  exists m', monitor_of a (fetch E a w) = Some m' /\
    ticks_ok E (world_of (fetch E a w)) m'.
Proof.
  intros Hclock H Hok. pose proof (lookup_lt_Some _ _ _ H) as Ha.
  rewrite (put_id w a m H) in Hok.
  unfold monitor_of.
  destruct (fetch_cases E a w m H); simpl world_of.
  - eexists. split; [by apply lookup_put |].
    rewrite <- (put_id w a m H) in Hok. by eapply fetched_ticks_ok.
  - eexists. split; [by apply lookup_put |].
    eapply ticks_ok_later; [| | | exact Hok]; [done | done | lia].
  - eexists. split; [by apply lookup_put |].
    eapply ticks_ok_later; [| | | exact Hok]; [done | done | lia].
  - eexists. split; [by apply lookup_put |].
    eapply ticks_ok_later; [| | | exact Hok]; [done | done | lia].
Qed.

Lemma ticks_ok_mono E w w' m :
  now w <= now w' -> ticks_ok E w m -> ticks_ok E w' m.
Proof.
  intros Hn (Hsorted & p & Hp & Hle & Hfuture). split; [done |].
  exists p. split_and!; [done | done |].
  intros j Hj. apply Hfuture. lia.
Qed.

Lemma fetches_ticks_ok E a delays :
  clock_nondecreasing E ->
  forall w m,
    heap w !! a = Some m -> ticks_ok E w m ->
    exists m',
      monitor_of a (for_each delays (fun d => idle d;; fetch E a) w) = Some m' /\
      ticks_ok E (world_of (for_each delays (fun d => idle d;; fetch E a) w)) m'.
Proof.
  intros Hclock. induction delays as [|d delays IH]; intros w m H Hok.
  - exists m. by split.
  - set (w1 := {| now := now w + d; heap := heap w; trace := trace w |}).
    assert (ticks_ok E w1 m) as Hok1.
    { eapply ticks_ok_mono; [| exact Hok]. simpl. lia. }
    destruct (fetch_ticks_ok E a w1 m Hclock H Hok1) as (m1 & Hm1 & Hok2).
    assert (for_each (d :: delays) (fun d => idle d;; fetch E a) w
            = match fetch E a w1 with
              | Ok _ w2 => for_each delays (fun d => idle d;; fetch E a) w2
              | Raise e w2 => Raise e w2
              end) as -> by reflexivity.
    unfold monitor_of in *.
    destruct (fetch E a w1) as [[] w2 | e w2]; simpl in Hm1, Hok2.
    + by apply (IH w2 m1).
    + by exists m1.
Qed.


Lemma E_busy_clock_nondecreasing : clock_nondecreasing E_busy.
Proof. intros i j Hij. simpl. rewrite <- Zle_Qle. lia. Qed.


(** ** The scoped session *)

Lemma view_length E n m buf : length buf <= length (view E n m buf).
Proof.
  unfold view. destruct (process m) as [[]|]; rewrite ?length_app; lia.
Qed.

(** [fetch] and [stop] on a drainable monitor: both return, the monitor is
    left halted and drainable, and no other monitor is touched. *)
Lemma drain_one E a w :
  drainable w a ->
  exists w',
    (fetch E a;; stop E a) w = Ok tt w' /\
    trace w' = trace w ++ drained a /\
    halted w' a /\
    (forall b, drainable w b -> drainable w' b) /\
    (forall b, halted w b -> halted w' b).
Proof.
  intros (m & buf & p & q & pr & H & Hb & Hp & Hq & Hpr & Hlen).
  pose proof (lookup_lt_Some _ _ _ H) as Ha.
  destruct (fetch_returns_at E a w m buf p H Hb Hp) as (stamps & _ & Hf).
  { etrans; [exact Hlen | apply view_length]. }
  set (mf := fetched E (now w) m buf stamps) in *.
  set (ms := stopped E (now w + 6) mf q).
  exists (put (now w + 6 + 1) (heap w) ((trace w ++ [EFetch a; ECall a]) ++ [EStop a]) a ms).
  split_and!.
  - unfold bind. rewrite Hf.
    by apply (stop_put E _ _ _ _ mf q pr
                (view E (now w + 4) m (view E (now w) m buf) ++ [fetch_point E (now w) m])).
  - simpl. by rewrite <- app_assoc.
  - unfold halted. by rewrite lookup_put.
  - intros b Hd. destruct (decide (a = b)) as [<- | Hne].
    + exists ms. do 4 eexists. split; [by apply lookup_put |].
      split_and!; try reflexivity. cbn.
      rewrite length_app. simpl.
      etrans; [| apply view_length]. rewrite length_app. simpl.
      pose proof (view_length E (now w + 4) m (view E (now w) m buf)). lia.
    + destruct Hd as (mb & Hd). exists mb.
      by rewrite lookup_put_ne.
  - intros b Hb'. unfold halted in *. destruct (decide (a = b)) as [<- | Hne].
    + by rewrite lookup_put.
    + by rewrite lookup_put_ne.
Qed.

Lemma finally_drains E ms :
  forall w,
    Forall (drainable w) ms ->
    exists w',
      monitor_resource_finally E ms w = Ok tt w' /\
      trace w' = trace w ++ flat_map drained ms /\
      Forall (halted w') ms /\
      (forall b, halted w b -> halted w' b).
Proof.
  induction ms as [|a ms IH]; intros w Hd.
  - exists w. split_and!; [done | by rewrite app_nil_r | done | done].
  - apply Forall_cons in Hd as [Ha Hms].
    destruct (drain_one E a w Ha) as (w1 & Hrun & Htr & Hh & Hkeep & Hstay).
    destruct (IH w1) as (w2 & Hrun2 & Htr2 & Hh2 & Hstay2).
    { eapply Forall_impl; [exact Hms | exact Hkeep]. }
    exists w2. split_and!.
    + unfold monitor_resource_finally in *. cbn [for_each].
      unfold bind at 1. by rewrite Hrun.
    + rewrite Htr2, Htr. simpl. by rewrite <- app_assoc.
    + apply Forall_cons. split; [by apply Hstay2 | done].
    + intros b Hb. by apply Hstay2, Hstay.
Qed.

Lemma drainableb_true w a : drainableb w a = true -> drainable w a.
Proof.
  unfold drainableb, drainable. intros H.
  destruct (heap w !! a) as [m|]; [| done].
  destruct (shared_list m) as [buf|] eqn:?; [| done].
  destruct (prev_time m) as [p|] eqn:?; [| done].
  destruct (stop_queue m) as [q|] eqn:?; [| done].
  destruct (process m) as [pr|] eqn:?; [| done].
  apply Nat.leb_le in H. by exists m, buf, p, q, pr.
Qed.

(** [start] makes a monitor that has no data yet drainable. *)
Lemma start_drainable E a w m :
  heap w !! a = Some m -> data m = [] ->
  exists w', start E a w = Ok tt w' /\ drainable w' a.
Proof.
  intros H Hd. pose proof (lookup_lt_Some _ _ _ H) as Ha.
  eexists. split; [by apply start_at |].
  exists (started E (now w) m). do 4 eexists.
  split; [by apply lookup_put |]. split_and!; try reflexivity.
  cbn. rewrite Hd. simpl. lia.
Qed.

Lemma started_no_data_drainable w a : started_no_data w a -> drainable w a.
Proof.
  intros (m & buf & p & q & pr & H & Hb & Hp & Hq & Hpr & Hd).
  exists m, buf, p, q, pr. split_and!; try done. rewrite Hd. simpl. lia.
Qed.

Lemma start_no_data E b w w' :
  start E b w = Ok tt w' ->
  (forall a, no_data w a -> no_data w' a) /\
  (forall a, started_no_data w a -> started_no_data w' a) /\
  (no_data w b -> started_no_data w' b).
Proof.
  destruct (heap w !! b) as [m|] eqn:H.
  - rewrite (start_at E b w m H). intros [= <-].
    pose proof (lookup_lt_Some _ _ _ H) as Hb.
    assert (forall a, no_data w a ->
              a = b /\ data m = [] \/
              a ≠ b /\ heap (put (now w + 1) (heap w) (trace w ++ [EStart b]) b
                               (started E (now w) m)) !! a = heap w !! a) as Hcase.
    { intros a (ma & Ha & Hd). destruct (decide (b = a)) as [<- | Hne].
      - left. split; [done | congruence].
      - right. split; [done | by apply lookup_put_ne]. }
    split_and!.
    + intros a Ha. destruct (Hcase a Ha) as [[-> Hd] | [Hne Heq]].
      * exists (started E (now w) m). split; [by apply lookup_put | done].
      * destruct Ha as (ma & Ha & Hd). exists ma. by rewrite Heq.
    + intros a (ma & buf & p & q & pr & Ha & Hrest).
      destruct (decide (b = a)) as [<- | Hne].
      * assert (ma = m) as -> by congruence.
        exists (started E (now w) m). do 4 eexists.
        split; [by apply lookup_put |]. split_and!; try reflexivity.
        by destruct Hrest as (_ & _ & _ & _ & ?).
      * exists ma, buf, p, q, pr. by rewrite lookup_put_ne.
    + intros (mb & Hmb & Hd). assert (mb = m) as -> by congruence.
      exists (started E (now w) m). do 4 eexists.
      split; [by apply lookup_put |]. split_and!; try reflexivity. done.
  - unfold start, bind, log, setobj. simpl. by rewrite H.
Qed.

Lemma starts_no_data E ms :
  forall w w',
    for_each ms (start E) w = Ok tt w' ->
    (forall a, no_data w a -> no_data w' a) /\
    (forall a, started_no_data w a -> started_no_data w' a) /\
    (Forall (no_data w) ms -> Forall (started_no_data w') ms).
Proof.
  induction ms as [|b ms IH]; intros w w'; cbn [for_each].
  - intros [= <-]. by split_and!.
  - unfold bind at 1. destruct (start E b w) as [[] w1 | e w1] eqn:Hb; [| done].
    intros Hrest.
    destruct (start_no_data E b w w1 Hb) as (Hn1 & Hs1 & Hb1).
    destruct (IH w1 w' Hrest) as (Hn2 & Hs2 & Hms2).
    split_and!; [by auto | by auto |].
    intros [Hnb Hnms]%Forall_cons. apply Forall_cons. split; [by auto |].
    apply Hms2. eapply Forall_impl; [exact Hnms | exact Hn1].
Qed.

Lemma make_monitor_alias_no_data E freq kw res w a w' :
  is_alias res ->
  make_monitor E freq kw res w = Ok a w' ->
  no_data w' a /\ (forall b, no_data w b -> no_data w' b).
Proof.
  destruct res as [s | b]; [intros _ | done]. simpl.
  destruct (lookup_alias s) as [c|]; [| done].
  unfold init. destruct (get_usage E c) as [f|]; [| done].
  unfold alloc. intros [= <- <-]. split.
  - eexists. simpl. split; [by rewrite lookup_app_r, Nat.sub_diag | done].
  - intros b (mb & Hb & Hd). exists mb. split; [| done]. simpl.
    by apply lookup_app_l_Some.
Qed.

Lemma comprehension_aliases_no_data E freq kw rs :
  forall w ms w',
    Forall is_alias rs ->
    comprehension (make_monitor E freq kw) rs w = Ok ms w' ->
    Forall (no_data w') ms /\ (forall b, no_data w b -> no_data w' b).
Proof.
  induction rs as [|res rs IH]; intros w ms w' Hal; cbn [comprehension].
  - intros [= <- <-]. by split.
  - apply Forall_cons in Hal as [Hres Hrs]. unfold bind at 1.
    destruct (make_monitor E freq kw res w) as [a w1 | e w1] eqn:Ha; [| done].
    unfold bind at 1.
    destruct (comprehension (make_monitor E freq kw) rs w1) as [ms' w2 | e w2] eqn:Hms;
      [| done].
    intros [= <- <-].
    destruct (make_monitor_alias_no_data _ _ _ _ _ _ _ Hres Ha) as [Hna Hkeep].
    destruct (IH _ _ _ Hrs Hms) as [Hall Hkeep'].
    split; [| by auto]. apply Forall_cons. split; [by auto | done].
Qed.

(** The monitors of a session given by aliases only are all drainable at
    the [yield]. *)
Lemma alias_session_drainable E resource freq kw w g w1 :
  Forall is_alias (selectors resource) ->
  monitor_resource E resource freq kw w = Ok g w1 ->
  Forall (drainable w1) (monitors g).
Proof.
  intros Hal. unfold monitor_resource. unfold bind at 1.
  destruct (comprehension (make_monitor E freq kw) (selectors resource) w)
    as [ms w0 | e w0] eqn:Hms; [| done].
  destruct (for_each ms (start E) w0) as [[] w2 | e w2] eqn:Hstart.
  - intros [= <- <-]. simpl.
    destruct (comprehension_aliases_no_data _ _ _ _ _ _ _ Hal Hms) as [Hall _].
    destruct (starts_no_data E ms w0 w2 Hstart) as (_ & _ & Hs).
    eapply Forall_impl; [by apply Hs |]. intros a. apply started_no_data_drainable.
  - unfold try_finally, raise.
    by destruct (monitor_resource_finally E ms w2).
Qed.




(** ** What the session yields *)

Lemma extends_refl w : extends w w.
Proof. intros b m H. by exists m. Qed.

Lemma extends_trans w1 w2 w3 : extends w1 w2 -> extends w2 w3 -> extends w1 w3.
Proof.
  intros H12 H23 b m H.
  destruct (H12 b m H) as (m2 & H2 & Hc2).
  destruct (H23 b m2 H2) as (m3 & H3 & Hc3).
  exists m3. split; [done | congruence].
Qed.

Lemma selects_extends w w' res a : extends w w' -> selects w res a -> selects w' res a.
Proof.
  intros Hext. destruct res as [s | b]; simpl; [| done].
  intros (c & m & Hc & Hm & Hcls).
  destruct (Hext a m Hm) as (m' & Hm' & Hcls').
  exists c, m'. split_and!; [done | done | congruence].
Qed.

Lemma make_monitor_Ok E freq kw res w a w' :
  make_monitor E freq kw res w = Ok a w' -> selects w' res a /\ extends w w'.
Proof.
  destruct res as [s | b]; simpl.
  - destruct (lookup_alias s) as [c|] eqn:Hc; [| done].
    unfold init. destruct (get_usage E c) as [f|]; [| done].
    unfold alloc. intros [= <- <-]. split.
    + eexists c, _. split; [done |]. simpl. split.
      * by rewrite lookup_app_r, Nat.sub_diag.
      * reflexivity.
    + intros b m Hb. exists m. split; [| done]. simpl.
      by apply lookup_app_l_Some.
  - intros [= <- <-]. split; [done | apply extends_refl].
Qed.

Lemma comprehension_Ok E freq kw rs :
  forall w ms w',
    comprehension (make_monitor E freq kw) rs w = Ok ms w' ->
    Forall2 (selects w') rs ms /\ extends w w'.
Proof.
  induction rs as [|res rs IH]; intros w ms w'; cbn [comprehension].
  - intros [= <- <-]. split; [constructor | apply extends_refl].
  - unfold bind at 1.
    destruct (make_monitor E freq kw res w) as [a w1 | e w1] eqn:Ha; [| done].
    unfold bind at 1.
    destruct (comprehension (make_monitor E freq kw) rs w1) as [ms' w2 | e w2] eqn:Hms;
      [| done].
    intros [= <- <-].
    destruct (make_monitor_Ok _ _ _ _ _ _ _ Ha) as [Hsel Hext].
    destruct (IH _ _ _ Hms) as [Hall Hext'].
    split; [| by eapply extends_trans].
    constructor; [by eapply selects_extends | done].
Qed.

Lemma start_extends E a w w' : start E a w = Ok tt w' -> extends w w'.
Proof.
  destruct (heap w !! a) as [m|] eqn:H.
  - rewrite (start_at E a w m H). intros [= <-] b mb Hb.
    pose proof (lookup_lt_Some _ _ _ H) as Ha.
    destruct (decide (a = b)) as [<- | Hne].
    + exists (started E (now w) m). split; [by apply lookup_put |].
      assert (mb = m) as -> by congruence. reflexivity.
    + exists mb. by rewrite lookup_put_ne.
  - unfold start, bind, log, setobj. simpl. by rewrite H.
Qed.

Lemma starts_extend E ms :
  forall w w', for_each ms (start E) w = Ok tt w' -> extends w w'.
Proof.
  induction ms as [|a ms IH]; intros w w'; cbn [for_each].
  - intros [= <-]. apply extends_refl.
  - unfold bind at 1. destruct (start E a w) as [[] w1 | e w1] eqn:Ha; [| done].
    intros Hrest. eapply extends_trans; [by eapply start_extends | by apply IH].
Qed.

Lemma yield_value_one a : yield_value [a] = YMonitor a.
Proof. reflexivity. Qed.

Lemma yield_value_many ms : length ms ≠ 1 -> yield_value ms = YMonitors ms.
Proof.
  intros H. unfold yield_value.
  by destruct (Nat.eqb_spec (length ms) 1).
Qed.

Lemma monitor_resource_Ok_yields E resource freq kw w g w1 :
  monitor_resource E resource freq kw w = Ok g w1 ->
  ((exists a, yielded g = YMonitor a) <-> length (selectors resource) = 1) /\
  (forall a, yielded g = YMonitor a -> monitors g = [a]) /\
  (length (selectors resource) ≠ 1 -> yielded g = YMonitors (monitors g)) /\
  Forall2 (selects w1) (selectors resource) (monitors g).
Proof.
  unfold monitor_resource. unfold bind at 1.
  destruct (comprehension (make_monitor E freq kw) (selectors resource) w)
    as [ms w0 | e w0] eqn:Hms; [| done].
  destruct (for_each ms (start E) w0) as [[] w2 | e w2] eqn:Hstart.
  - intros [= <- <-]. simpl.
    destruct (comprehension_Ok _ _ _ _ _ _ _ Hms) as [Hall _].
    pose proof (Forall2_length _ _ _ Hall) as Hlen.
    assert (Forall2 (selects w2) (selectors resource) ms) as Hall2.
    { eapply Forall2_impl; [exact Hall |].
      intros res a. apply selects_extends. by eapply starts_extend. }
    destruct (decide (length ms = 1)) as [Hone | Hmany].
    + destruct ms as [|a [|]]; try done. rewrite yield_value_one.
      split_and!; [| by intros ? [= <-] | by rewrite Hlen | done].
      split; [by rewrite Hlen | by exists a].
    + rewrite (yield_value_many ms Hmany).
      split_and!; [| done | done | done].
      split; [by intros [a ?] | by rewrite Hlen].
  - unfold try_finally, raise.
    by destruct (monitor_resource_finally E ms w2).
Qed.

Lemma MONITOR_ALIASES_classes :
  map_Forall (fun _ c => c ≠ PlainMonitor) MONITOR_ALIASES.
Proof.
  unfold MONITOR_ALIASES, MONITOR_ALIASES_by_class. simpl.
  repeat (apply map_Forall_insert_2; [done |]).
  apply map_Forall_empty.
Qed.

Lemma lookup_alias_get_usage E s c :
  lookup_alias s = Some c -> is_Some (get_usage E c).
Proof.
  intros H. apply MONITOR_ALIASES_classes in H. by destruct c.
Qed.

Lemma make_monitor_returns E freq kw res w :
  known w res ->
  exists a w',
    make_monitor E freq kw res w = Ok a w' /\
    a < length (heap w') /\ length (heap w) <= length (heap w').
Proof.
  destruct res as [s | b]; simpl.
  - intros [c Hc]. rewrite Hc. unfold init.
    destruct (lookup_alias_get_usage E s c Hc) as [f ->].
    eexists _, _. split; [reflexivity |]. simpl. rewrite length_app. simpl. lia.
  - intros Hb. by exists b, w.
Qed.

Lemma known_later w w' res :
  length (heap w) <= length (heap w') -> known w res -> known w' res.
Proof. destruct res; simpl; [done | lia]. Qed.

Lemma comprehension_returns E freq kw rs :
  forall w,
    Forall (known w) rs ->
    exists ms w',
      comprehension (make_monitor E freq kw) rs w = Ok ms w' /\
      Forall (fun a => a < length (heap w')) ms /\
      length (heap w) <= length (heap w').
Proof.
  induction rs as [|res rs IH]; intros w Hk; cbn [comprehension].
  - by exists [], w.
  - apply Forall_cons in Hk as [Hres Hrs].
    destruct (make_monitor_returns E freq kw res w Hres) as (a & w1 & Ha & Hlt & Hle).
    destruct (IH w1) as (ms & w2 & Hms & Hall & Hle2).
    { eapply Forall_impl; [exact Hrs |]. intros r. by apply known_later. }
    exists (a :: ms), w2. split_and!; [| | lia].
    + unfold bind at 1. rewrite Ha. unfold bind at 1. by rewrite Hms.
    + apply Forall_cons. split; [lia | done].
Qed.

Lemma starts_return E ms :
  forall w,
    Forall (fun a => a < length (heap w)) ms ->
    exists w', for_each ms (start E) w = Ok tt w'.
Proof.
  induction ms as [|a ms IH]; intros w Hall; cbn [for_each].
  - by exists w.
  - apply Forall_cons in Hall as [Ha Hms].
    destruct (lookup_lt_is_Some_2 _ _ Ha) as [m Hm].
    unfold bind at 1. rewrite (start_at E a w m Hm).
    apply IH. eapply Forall_impl; [exact Hms |].
    intros b Hb. unfold put. simpl. by rewrite length_insert.
Qed.



(** ** Memory readings *)

Lemma Gb_positive : (0 < inject_Z (1024 ^ 3))%Q.
Proof. reflexivity. Qed.

(** C8. When the operating system reports a non-negative number of bytes in
    use, [MemoryMonitor.get_usage] returns a non-negative number, the byte
    count divided by 1024 cubed: a figure in gigabytes, as [UNIT] says. *)
Theorem MemoryMonitor_get_usage_gigabytes E pid kw r :
  (0 <= virtual_memory_used r)%Z ->
  get_usage E MemoryMonitor = Some MemoryMonitor_get_usage /\
  UNIT MemoryMonitor = Some "Gb" /\
  exists q,
    MemoryMonitor_get_usage pid kw r = Num q /\
    (0 <= q)%Q /\
    (q * inject_Z (1024 ^ 3) == inject_Z (virtual_memory_used r))%Q.
Proof.
  intros Hused. split_and!; [reflexivity | reflexivity |].
  eexists. split; [reflexivity |]. split.
  - apply Qle_shift_div_l; [apply Gb_positive |].
    rewrite Qmult_0_l. change 0%Q with (inject_Z 0). by rewrite <- Zle_Qle.
  - field. by intros [=].
Qed.

Lemma MemoryMonitor_get_usage_gigabytes_witness :
  exists q,
    MemoryMonitor_get_usage (Some 7%nat) None (os_demo 3) = Num q /\
    (0 <= q)%Q /\
    (q * inject_Z (1024 ^ 3) == inject_Z (3 * 1024 ^ 3))%Q.
Proof.
  destruct (MemoryMonitor_get_usage_gigabytes E_busy (Some 7%nat) None (os_demo 3))
    as (_ & _ & q & Hq & Hpos & Hval).
  - simpl. lia.
  - exists q. split_and!; assumption.
Defined.

(** C9. [RSSMonitor.get_usage] divides the resident set size by 1024
    squared, which gives megabytes, 1024 times the figure in gigabytes,
    while its [UNIT] is Gb as for [MemoryMonitor], [VMSMonitor] and
    [USSMonitor], which divide by 1024 cubed. *)
Theorem RSSMonitor_get_usage_megabytes E pid kw r :
  get_usage E RSSMonitor = Some (RSSMonitor_get_usage E) /\
  (exists q,
     RSSMonitor_get_usage E pid kw r = Num q /\
     (q * inject_Z (1024 ^ 2) == inject_Z (memory_info_rss r (Process E pid)))%Q /\
     (q == 1024 * (inject_Z (memory_info_rss r (Process E pid)) / inject_Z (1024 ^ 3)))%Q) /\
  UNIT RSSMonitor = Some "Gb" /\
  UNIT MemoryMonitor = Some "Gb" /\ UNIT VMSMonitor = Some "Gb" /\
  UNIT USSMonitor = Some "Gb" /\
  MemoryMonitor_get_usage pid kw r
    = Num (inject_Z (virtual_memory_used r) / inject_Z (1024 ^ 3)) /\
  VMSMonitor_get_usage E pid kw r
    = Num (inject_Z (memory_info_vms r (Process E pid)) / inject_Z (1024 ^ 3)) /\
  USSMonitor_get_usage E pid kw r
    = Num (inject_Z (memory_full_info_uss r (Process E pid)) / inject_Z (1024 ^ 3)).
Proof.
  split_and!; try reflexivity.
  eexists. split; [reflexivity |].
  change (inject_Z (1024 ^ 2)) with 1048576%Q.
  change (inject_Z (1024 ^ 3)) with 1073741824%Q.
  split; field.
Qed.

(** ** The alias registry *)

Lemma lower_ascii_idemp c : lower_ascii (lower_ascii c) = lower_ascii c.
Proof. by destruct c as [[] [] [] [] [] [] [] []]. Qed.

Lemma lower_upper_ascii c : lower_ascii (upper_ascii c) = lower_ascii c.
Proof. by destruct c as [[] [] [] [] [] [] [] []]. Qed.

Lemma lower_idemp s : lower (lower s) = lower s.
Proof. induction s as [|c s IH]; simpl; [done |]. by rewrite lower_ascii_idemp, IH. Qed.

Lemma lower_upper s : lower (upper s) = lower s.
Proof. induction s as [|c s IH]; simpl; [done |]. by rewrite lower_upper_ascii, IH. Qed.



(** ** The sampler loop *)

Section SamplerLoop.

Variable env : SamplerEnv.
Variable period : Q.

Hypothesis only_caught : forall k e, attempt env k = Failed e -> caught e = true.

Lemma endless_repeat_turn fuel k buf log :
  queue_empty env k = true ->
  endless_repeat env period (S fuel) k buf log
  = endless_repeat env period fuel (k + 1) (buf ++ appended env k)
      (log ++ iteration env period k).
Proof.
  intros Hq. cbn [endless_repeat]. rewrite Hq.
  unfold appended, iteration.
  destruct (attempt env k) as [x | e] eqn:Ha; [done |].
  by rewrite (only_caught k e Ha), app_nil_r.
Qed.

Lemma endless_repeat_returns n :
  forall k buf log fuel,
    (forall i, k <= i < k + n -> queue_empty env i = true) ->
    queue_empty env (k + n) = false ->
    n < fuel ->
    endless_repeat env period fuel k buf log
    = {| exit := Returned;
         buffer := buf ++ flat_map (appended env) (seq k n);
         events := log ++ flat_map (iteration env period) (seq k n) ++ [Poll false] |}.
Proof.
  induction n as [|n IH]; intros k buf log fuel Hempty Hstop Hfuel.
  - destruct fuel as [|fuel]; [lia |]. cbn [endless_repeat].
    rewrite Nat.add_0_r in Hstop. rewrite Hstop. simpl. by rewrite app_nil_r.
  - destruct fuel as [|fuel]; [lia |].
    rewrite endless_repeat_turn by (apply Hempty; lia).
    rewrite (IH (k + 1)); [| intros i Hi; apply Hempty; lia | | lia].
    + replace (k + 1) with (S k) by lia. simpl. by rewrite <- !app_assoc.
    + by replace (k + 1 + n) with (k + S n) by lia.
Qed.

Lemma endless_repeat_keeps_running fuel :
  forall k buf log,
    (forall i, k <= i -> queue_empty env i = true) ->
    exit (endless_repeat env period fuel k buf log) = StillRunning.
Proof.
  induction fuel as [|fuel IH]; intros k buf log Hempty; [done |].
  rewrite endless_repeat_turn by (apply Hempty; lia).
  apply IH. intros i Hi. apply Hempty. lia.
Qed.

Lemma endless_repeat_exit fuel :
  forall k buf log,
    match exit (endless_repeat env period fuel k buf log) with
    | Returned =>
        exists n, k <= n /\ queue_empty env n = false /\
          (forall i, k <= i < n -> queue_empty env i = true)
    | Propagated _ => False
    | StillRunning => True
    end.
Proof.
  induction fuel as [|fuel IH]; intros k buf log; [done |].
  destruct (queue_empty env k) eqn:Hq.
  - rewrite endless_repeat_turn by done.
    specialize (IH (k + 1) (buf ++ appended env k) (log ++ iteration env period k)).
    destruct (exit _); [| done | done].
    destruct IH as (n & Hn & Hstop & Hempty). exists n. split_and!; [lia | done |].
    intros i Hi. destruct (decide (i = k)) as [-> | ?]; [done |]. apply Hempty. lia.
  - cbn [endless_repeat]. rewrite Hq. simpl. exists k. split_and!; [lia | done |].
    intros i Hi. lia.
Qed.

End SamplerLoop.


Lemma env_demo_only_caught k e : attempt env_demo k = Failed e -> caught e = true.
Proof. simpl. destruct (k =? 1)%nat; [by intros [= <-] | done]. Qed.


(** * Further properties *)

(** ** Calls out of order *)

(** X1. [fetch] on a monitor that has not been started raises [TypeError]
    at the copy of the shared list, and leaves every instance as it was. *)
Theorem fetch_before_start E a w m :
  heap w !! a = Some m ->
  shared_list m = None ->
  exists w',
    fetch E a w = Raise TypeError w' /\
    heap w' = heap w /\ now w' = now w /\ trace w' = trace w ++ [EFetch a].
Proof.
  intros H Hb. pose proof (lookup_lt_Some _ _ _ H) as Ha.
  eexists. split.
  - rewrite (put_id w a m H) at 1. by apply fetch_put_no_shared_list.
  - split_and!; [| done | done]. simpl. by apply list_insert_id.
Qed.

Lemma fetch_before_start_witness :
  exists w',
    (a ← init E_busy MemoryMonitor None (1 # 2) None; fetch E_busy a) w_empty
    = Raise TypeError w' /\
    heap w' = [m_fresh].
Proof.
  destruct (fetch_before_start E_busy 0 {| now := 0; heap := [m_fresh]; trace := [] |}
              m_fresh eq_refl eq_refl) as (w' & Hf & Hh & _).
  exists w'. split; [exact Hf | exact Hh].
Defined.

Lemma stop_put_no_stop_queue E n h t a m :
  a < length h -> stop_queue m = None ->
  stop E a (put n h t a m) = Raise AttributeError (put n h (t ++ [EStop a]) a m).
Proof.
  intros Ha Hq. unfold stop. do 2 step. by rewrite Hq.
Qed.

(** X2. [stop] on a monitor that has not been started raises
    [AttributeError] at [self.stop_queue.put], and leaves every instance as
    it was. *)
Theorem stop_before_start E a w m :
  heap w !! a = Some m ->
  stop_queue m = None ->
  exists w',
    stop E a w = Raise AttributeError w' /\
    heap w' = heap w /\ now w' = now w /\ trace w' = trace w ++ [EStop a].
Proof.
  intros H Hq. pose proof (lookup_lt_Some _ _ _ H) as Ha.
  eexists. split.
  - rewrite (put_id w a m H) at 1. by apply stop_put_no_stop_queue.
  - split_and!; [| done | done]. simpl. by apply list_insert_id.
Qed.

Lemma stop_before_start_witness :
  exists w',
    (a ← init E_busy MemoryMonitor None (1 # 2) None; stop E_busy a) w_empty
    = Raise AttributeError w' /\
    heap w' = [m_fresh].
Proof.
  destruct (stop_before_start E_busy 0 {| now := 0; heap := [m_fresh]; trace := [] |}
              m_fresh eq_refl eq_refl) as (w' & Hf & Hh & _).
  exists w'. split; [exact Hf | exact Hh].
Defined.

(** ** Sequences of calls on one monitor *)

Lemma for_each_cons {A} (f : A -> M unit) x xs w :
  for_each (x :: xs) f w
  = match f x w with
    | Ok _ w' => for_each xs f w'
    | Raise e w' => Raise e w'
    end.
Proof. reflexivity. Qed.

(** What every call keeps, however it ends, the loop keeps, however it
    ends. *)
Lemma for_each_keeps {A} (f : A -> M unit) (P : World -> Prop) xs :
  (forall x w, P w -> P (world_of (f x w))) ->
  forall w, P w -> P (world_of (for_each xs f w)).
Proof.
  intros Hstep. induction xs as [|x xs IH]; intros w Hw; [done |].
  rewrite for_each_cons. specialize (Hstep x w Hw).
  destruct (f x w) as [[] w' | e w']; simpl in Hstep; [by apply IH | done].
Qed.

(** What every call that returns keeps, a loop that returns keeps. *)
Lemma for_each_Ok_keeps {A} (f : A -> M unit) (P : World -> Prop) xs :
  (forall x w w', P w -> f x w = Ok tt w' -> P w') ->
  forall w w', P w -> for_each xs f w = Ok tt w' -> P w'.
Proof.
  intros Hstep. induction xs as [|x xs IH]; intros w w' Hw.
  - by intros [= <-].
  - rewrite for_each_cons. destruct (f x w) as [[] w1 | e w1] eqn:Hx; [| done].
    apply IH. by eapply Hstep.
Qed.

Lemma stop_put_no_process E n h t a m q :
  a < length h -> stop_queue m = Some q -> process m = None ->
  stop E a (put n h t a m)
  = Raise AttributeError
      (put n h (t ++ [EStop a]) a (set_stop_queue (Some (q ++ [true])) m)).
Proof.
  intros Ha Hq Hp. unfold stop. do 2 step. rewrite Hq. step. by rewrite Hp.
Qed.

Lemma stop_put_no_shared_list E n h t a m q pr :
  a < length h -> stop_queue m = Some q -> process m = Some pr ->
  shared_list m = None ->
  stop E a (put n h t a m)
  = Ok tt (put n h (t ++ [EStop a]) a
             (set_running false
                (set_process (Some false) (set_stop_queue (Some (q ++ [true])) m)))).
Proof.
  intros Ha Hq Hp Hb. unfold stop. do 2 step. rewrite Hq. step. rewrite Hp, Hb.
  erewrite (bind_ok (ret tt)); [| reflexivity].
  step. by rewrite setobj_put.
Qed.

Lemma at_put {A} (f : World -> A) w a m :
  heap w !! a = Some m -> f w = f (put (now w) (heap w) (trace w) a m).
Proof. intros H. by rewrite <- put_id. Qed.

(** However [stop] ends, it changes the monitor it is called on only, and
    neither its [data] nor its [ticks]. *)
Lemma stop_effect E a w m :
  heap w !! a = Some m ->
  exists m',
    heap (world_of (stop E a w)) = <[a := m']> (heap w) /\
    data m' = data m /\ ticks m' = ticks m /\
    now w <= now (world_of (stop E a w)) /\
    (forall w', stop E a w = Ok tt w' -> running m' = false).
Proof.
  intros H. pose proof (lookup_lt_Some _ _ _ H) as Ha.
  rewrite (at_put (stop E a) w a m H).
  destruct (stop_queue m) as [q|] eqn:Hq.
  - destruct (process m) as [pr|] eqn:Hp.
    + destruct (shared_list m) as [buf|] eqn:Hb.
      * rewrite (stop_put E _ _ _ _ m q pr buf) by done.
        exists (stopped E (now w) m q). simpl. split_and!; try done. lia.
      * rewrite (stop_put_no_shared_list E _ _ _ _ m q pr) by done.
        eexists. simpl. split_and!; try done.
    + rewrite (stop_put_no_process E _ _ _ _ m q) by done.
      eexists. simpl. split_and!; try done.
  - rewrite stop_put_no_stop_queue by done.
    exists m. simpl. split_and!; try done.
Qed.

(** However [fetch] ends, it changes the monitor it is called on only, and
    its [ticks] by appending. *)
Lemma fetch_effect E a w m :
  heap w !! a = Some m ->
  exists m',
    heap (world_of (fetch E a w)) = <[a := m']> (heap w) /\
    ticks m `prefix_of` ticks m' /\
    now w <= now (world_of (fetch E a w)).
Proof.
  intros H. destruct (fetch_cases E a w m H); eexists; simpl;
    (split_and!; [reflexivity | | lia]); try done.
  cbn. by apply prefix_app_r.
Qed.

Lemma call_effect E a c w m :
  heap w !! a = Some m ->
  exists m',
    heap (world_of (call E a c w)) = <[a := m']> (heap w) /\
    ticks m `prefix_of` ticks m'.
Proof.
  intros H. destruct c as [| | |d]; simpl.
  - rewrite (start_at E a w m H). by eexists.
  - destruct (fetch_effect E a w m H) as (m' & Hh & Ht & _). by exists m'.
  - destruct (stop_effect E a w m H) as (m' & Hh & _ & Ht & _).
    exists m'. by rewrite Ht.
  - exists m. split; [| done]. simpl. by rewrite list_insert_id.
Qed.

Lemma calls_effect E a cs w m :
  heap w !! a = Some m ->
  exists m',
    heap (world_of (for_each cs (call E a) w)) = <[a := m']> (heap w) /\
    ticks m `prefix_of` ticks m'.
Proof.
  intros H. pose proof (lookup_lt_Some _ _ _ H) as Ha.
  apply (for_each_keeps (call E a)
           (fun w' => exists m', heap w' = <[a := m']> (heap w) /\
                                 ticks m `prefix_of` ticks m')).
  - intros c w1 (m1 & Hh1 & Ht1).
    destruct (call_effect E a c w1 m1) as (m2 & Hh2 & Ht2).
    { rewrite Hh1. by apply list_lookup_insert_eq. }
    exists m2. split; [| by etrans].
    by rewrite Hh2, Hh1, list_insert_insert_eq.
  - exists m. split; [by rewrite list_insert_id | done].
Qed.

(** X3. Whatever is called on one monitor, in whatever order and however
    the calls end, no other instance is changed. *)
Theorem calls_leave_others E a cs w m b :
  heap w !! a = Some m ->
  b ≠ a ->
  heap (world_of (for_each cs (call E a) w)) !! b = heap w !! b.
Proof.
  intros H Hne. destruct (calls_effect E a cs w m H) as (m' & -> & _).
  by apply list_lookup_insert_ne.
Qed.

(** X4. [ticks] only ever grows at its end: whatever is called on a
    monitor, in whatever order and however the calls end, the ticks it had
    are still there, as the first of its ticks. *)
Theorem ticks_append_only E a cs w m :
  heap w !! a = Some m ->
  exists m',
    monitor_of a (for_each cs (call E a) w) = Some m' /\
    ticks m `prefix_of` ticks m'.
Proof.
  intros H. pose proof (lookup_lt_Some _ _ _ H) as Ha.
  destruct (calls_effect E a cs w m H) as (m' & Hh & Ht).
  exists m'. split; [| done]. unfold monitor_of. rewrite Hh.
  by apply list_lookup_insert_eq.
Qed.

Lemma calls_leave_others_witness :
  heap (world_of (for_each [CStart; CFetch; CStop; CStart; CFetch] (call E_quiet 0)
                    {| now := 0; heap := [m_fresh; m_fresh]; trace := [] |})) !! 1%nat
  = Some m_fresh.
Proof.
  apply (calls_leave_others E_quiet 0 [CStart; CFetch; CStop; CStart; CFetch]
           {| now := 0; heap := [m_fresh; m_fresh]; trace := [] |} m_fresh 1);
    [reflexivity | lia].
Defined.

Lemma ticks_append_only_witness :
  exists m',
    monitor_of 0 (for_each [CStart; CFetch; CIdle 3; CFetch] (call E_busy 0)
                    (world_of (one_run E_busy w_empty))) = Some m' /\
    [inject_Z 0; inject_Z 4] `prefix_of` ticks m'.
Proof.
  assert (exists m, heap (world_of (one_run E_busy w_empty)) !! 0%nat = Some m /\
                    ticks m = [inject_Z 0; inject_Z 4]) as (m & Hm & Ht).
  { eexists. split; vm_compute; reflexivity. }
  rewrite <- Ht.
  exact (ticks_append_only E_busy 0 [CStart; CFetch; CIdle 3; CFetch] _ m Hm).
Defined.

(** X5. After any sequence of calls that all return, on a monitor whose
    [data] and [ticks] had the same length, they have the same length
    again. *)
Theorem calls_equal_length E a cs w m w' :
  heap w !! a = Some m ->
  length (data m) = length (ticks m) ->
  for_each cs (call E a) w = Ok tt w' ->
  exists m', heap w' !! a = Some m' /\ length (data m') = length (ticks m').
Proof.
  intros H Hlen.
  apply (for_each_Ok_keeps (call E a)
           (fun w' => exists m', heap w' !! a = Some m' /\
                                 length (data m') = length (ticks m'))); [| by exists m].
  clear. intros c w w' (m & H & Hlen) Hc.
  pose proof (lookup_lt_Some _ _ _ H) as Ha.
  destruct c as [| | |d]; simpl in Hc.
  - rewrite (start_at E a w m H) in Hc. injection Hc as <-.
    exists (started E (now w) m). split; [by apply lookup_put | done].
  - destruct (fetch_Ok_inv E a w m w' H Hc) as (buf & p & stamps & Hb & Hp & Hl & ->).
    destruct (linspace_Some _ _ _ _ Hl) as [Hnum Hs].
    exists (fetched E (now w) m buf stamps). split; [by apply lookup_put |].
    cbn. rewrite !length_app. simpl. lia.
  - destruct (stop_effect E a w m H) as (m' & Hh & Hd & Ht & _).
    rewrite Hc in Hh. simpl in Hh.
    exists m'. split; [rewrite Hh; by apply list_lookup_insert_eq | congruence].
  - injection Hc as <-. by exists m.
Qed.

Lemma calls_equal_length_witness :
  exists m',
    heap (world_of (for_each [CStart; CFetch; CStop; CStart; CFetch] (call E_busy 0)
                      {| now := 0; heap := [m_fresh]; trace := [] |})) !! 0%nat = Some m' /\
    length (data m') = length (ticks m').
Proof.
  apply (calls_equal_length E_busy 0 [CStart; CFetch; CStop; CStart; CFetch]
           {| now := 0; heap := [m_fresh]; trace := [] |} m_fresh);
    [reflexivity | reflexivity | vm_compute; reflexivity].
Defined.

(** ** The first run of a monitor *)

Lemma fetch_drainable E a w :
  drainable w a -> exists w', fetch E a w = Ok tt w' /\ drainable w' a.
Proof.
  intros (m & buf & p & q & pr & H & Hb & Hp & Hq & Hpr & Hlen).
  pose proof (lookup_lt_Some _ _ _ H) as Ha.
  destruct (fetch_returns_at E a w m buf p H Hb Hp) as (stamps & _ & Hf).
  { etrans; [exact Hlen | apply view_length]. }
  eexists. split; [exact Hf |].
  exists (fetched E (now w) m buf stamps). do 4 eexists.
  split; [by apply lookup_put |]. split_and!; try reflexivity; try eassumption.
  cbn. rewrite !length_app. simpl.
  pose proof (view_length E (now w + 4) m (view E (now w) m buf)). lia.
Qed.

Lemma stop_drainable E a w :
  drainable w a ->
  exists w', stop E a w = Ok tt w' /\ drainable w' a /\ halted w' a.
Proof.
  intros (m & buf & p & q & pr & H & Hb & Hp & Hq & Hpr & Hlen).
  pose proof (lookup_lt_Some _ _ _ H) as Ha.
  eexists. split.
  - rewrite (at_put (stop E a) w a m H). by apply (stop_put E _ _ _ _ m q pr buf).
  - split.
    + exists (stopped E (now w) m q), (view E (now w) m buf), p, (q ++ [true]), false.
      split; [by apply lookup_put |]. split_and!; try done.
      * cbn. by rewrite Hb.
      * cbn. etrans; [exact Hlen | apply view_length].
    + unfold halted. by rewrite lookup_put.
Qed.

Lemma for_each_returns {A} (f : A -> M unit) (P : World -> Prop) (Q : A -> Prop) xs :
  (forall x w, Q x -> P w -> exists w', f x w = Ok tt w' /\ P w') ->
  Forall Q xs ->
  forall w, P w -> exists w', for_each xs f w = Ok tt w' /\ P w'.
Proof.
  intros Hstep Hall. induction Hall as [|x xs Hx Hxs IH]; intros w Hw.
  - by exists w.
  - destruct (Hstep x w Hx Hw) as (w1 & Hf & Hw1).
    rewrite for_each_cons, Hf. by apply IH.
Qed.



(** ** [stop], and [fetch] after it *)

(** X7. [stop] does not fetch and can be repeated: on a started monitor,
    [stop] called twice returns twice, puts two signals in the stop queue,
    and leaves the monitor not running, with the [data] and the [ticks] it
    had. *)
Theorem stop_twice E a w m q pr buf :
  heap w !! a = Some m ->
  stop_queue m = Some q -> process m = Some pr -> shared_list m = Some buf ->
  exists w' m',
    (stop E a;; stop E a) w = Ok tt w' /\
    heap w' !! a = Some m' /\
    running m' = false /\ process m' = Some false /\
    stop_queue m' = Some (q ++ [true; true]) /\
    data m' = data m /\ ticks m' = ticks m /\
    trace w' = trace w ++ [EStop a; EStop a].
Proof.
  intros H Hq Hp Hb. pose proof (lookup_lt_Some _ _ _ H) as Ha.
  set (m1 := stopped E (now w) m q).
  exists (put (now w + 1 + 1) (heap w) ((trace w ++ [EStop a]) ++ [EStop a]) a
            (stopped E (now w + 1) m1 (q ++ [true]))),
    (stopped E (now w + 1) m1 (q ++ [true])).
  split_and!; try done.
  - unfold bind. rewrite (at_put (stop E a) w a m H).
    rewrite (stop_put E _ _ _ _ m q pr buf) by done.
    apply (stop_put E _ _ _ _ m1 (q ++ [true]) false (view E (now w) m buf)); try done.
    unfold m1. cbn. by rewrite Hb.
  - by apply lookup_put.
  - cbn. by rewrite <- app_assoc.
  - simpl. by rewrite <- app_assoc.
Qed.

Lemma stop_twice_witness :
  exists w' m',
    (stop E_busy 0;; stop E_busy 0) (world_of (first_start E_busy w_empty)) = Ok tt w' /\
    heap w' !! 0%nat = Some m' /\
    running m' = false /\
    stop_queue m' = Some [true; true] /\
    data m' = [] /\ ticks m' = [].
Proof.
  assert (heap (world_of (first_start E_busy w_empty)) !! 0%nat
          = Some (started E_busy 0 m_fresh)) as H1 by (vm_compute; reflexivity).
  destruct (stop_twice E_busy 0 _ _ [] true [] H1 eq_refl eq_refl eq_refl)
    as (w' & m' & Hrun & Hm & Hr & _ & Hq & Hd & Ht & _).
  exists w', m'. split_and!; assumption.
Defined.



(** ** Sessions *)

Lemma make_monitor_quiet E freq kw res w :
  (exists a w', make_monitor E freq kw res w = Ok a w' /\ quiet w w') \/
  (unknown_alias res /\ make_monitor E freq kw res w = Raise KeyError w).
Proof.
  destruct res as [s | b]; simpl.
  - destruct (lookup_alias s) as [c|] eqn:Hc.
    + left. unfold init. destruct (lookup_alias_get_usage E s c Hc) as [f ->].
      eexists _, _. split; [reflexivity |].
      split_and!; [done | done |]. simpl. by apply prefix_app_r.
    + right. split; [by exists s | done].
  - left. exists b, w. by split.
Qed.

Lemma comprehension_unknown_alias E freq kw rs :
  forall w,
    Exists unknown_alias rs ->
    exists w', comprehension (make_monitor E freq kw) rs w = Raise KeyError w' /\ quiet w w'.
Proof.
  induction rs as [|res rs IH]; intros w Hex; [by apply Exists_nil in Hex |].
  cbn [comprehension]. unfold bind at 1.
  destruct (make_monitor_quiet E freq kw res w) as [(a & w1 & H & Hq1) | [Hu ->]];
    [rewrite H |].
  - apply Exists_cons in Hex as [Hres | Hrs].
    + destruct Hres as (s & -> & Hs). simpl in H. by rewrite Hs in H.
    + destruct (IH w1 Hrs) as (w2 & Hc & Hq2).
      exists w2. unfold bind. rewrite Hc. split; [done |].
      destruct Hq1 as (? & ? & ?), Hq2 as (? & ? & ?).
      split_and!; [congruence | congruence | by etrans].
  - exists w. split; [done |]. by split_and!.
Qed.

(** X10. A selector that is not in the registry makes the session raise
    [KeyError] before anything is started: the block is not run, no call is
    made on any monitor, and the instances there were are as they were. *)
Theorem unknown_alias_raises {B} E resource freq kw (block : Yielded -> M B) w :
  Exists unknown_alias (selectors resource) ->
  exists w',
    with_monitor_resource E resource freq kw block w = Raise KeyError w' /\
    trace w' = trace w /\ now w' = now w /\ heap w `prefix_of` heap w'.
Proof.
  intros Hex.
  destruct (comprehension_unknown_alias E freq kw _ w Hex) as (w' & Hc & Hq).
  exists w'. split; [| exact Hq].
  unfold with_monitor_resource, monitor_resource, bind. by rewrite Hc.
Qed.

Lemma unknown_alias_raises_witness :
  exists w',
    with_monitor_resource E_busy (Many [Alias "cpu"; Alias "disk"]) (1 # 2) None
      (fun _ => ret tt) w_empty = Raise KeyError w' /\
    trace w' = [] /\ now w' = 0%nat.
Proof.
  destruct (unknown_alias_raises E_busy (Many [Alias "cpu"; Alias "disk"]) (1 # 2) None
              (fun _ => ret tt) w_empty) as (w' & Hrun & Ht & Hn & _).
  - apply Exists_cons_tl, Exists_cons_hd. exists "disk". split; [done |].
    vm_compute. reflexivity.
  - by exists w'.
Defined.

Lemma lookup_app_length {A} (l : list A) x : (l ++ [x]) !! length l = Some x.
Proof. by rewrite lookup_app_r, Nat.sub_diag. Qed.

Lemma insert_app_length {A} (l : list A) x y : <[length l := y]> (l ++ [x]) = l ++ [y].
Proof. by rewrite insert_app_r_alt, Nat.sub_diag. Qed.

(** A session on one alias: a monitor of its class is created after the
    objects there are, and started. *)
Lemma single_alias_session E s c f freq kw w :
  lookup_alias s = Some c -> get_usage E c = Some f ->
  monitor_resource E (One (Alias s)) freq kw w
  = Ok {| monitors := [length (heap w)]; yielded := YMonitor (length (heap w)) |}
      {| now := now w + 1;
         heap := heap w ++
           [started E (now w)
              {| cls := c; function := f; frequency := freq; kwargs := kw;
                 pid := getpid E; running := false;
                 stop_queue := None; shared_list := None; process := None;
                 start_time := None; prev_time := None; end_time := None;
                 ticks := []; data := [] |}];
         trace := trace w ++ [EStart (length (heap w))] |}.
Proof.
  intros Hs Hf. unfold monitor_resource. simpl.
  unfold bind at 1. simpl. rewrite Hs. unfold init. rewrite Hf.
  unfold bind, alloc, ret. cbn [for_each]. unfold bind.
  erewrite start_at by (simpl; apply lookup_app_length).
  unfold ret, put. simpl. by rewrite insert_app_length.
Qed.

(** X11. The shortcuts [monitor_memory], [monitor_cpu] and [monitor_gpu]
    each create one monitor, of class [MemoryMonitor], [CPUMonitor] and
    [GPUMonitor], with the frequency given and, for the last, the list of
    devices given, start it, and yield it bare; the instances there were
    are as they were. *)
Theorem shortcuts_yield_one_monitor E freq gpu_list w :
  (exists w1 m,
     monitor_memory E freq w
     = Ok {| monitors := [length (heap w)]; yielded := YMonitor (length (heap w)) |} w1 /\
     heap w1 = heap w ++ [m] /\ cls m = MemoryMonitor /\ frequency m = freq /\
     kwargs m = None /\ running m = true /\ data m = [] /\ ticks m = []) /\
  (exists w1 m,
     monitor_cpu E freq w
     = Ok {| monitors := [length (heap w)]; yielded := YMonitor (length (heap w)) |} w1 /\
     heap w1 = heap w ++ [m] /\ cls m = CPUMonitor /\ frequency m = freq /\
     kwargs m = None /\ running m = true /\ data m = [] /\ ticks m = []) /\
  (exists w1 m,
     monitor_gpu E freq gpu_list w
     = Ok {| monitors := [length (heap w)]; yielded := YMonitor (length (heap w)) |} w1 /\
     heap w1 = heap w ++ [m] /\ cls m = GPUMonitor /\ frequency m = freq /\
     kwargs m = gpu_list /\ running m = true /\ data m = [] /\ ticks m = []).
Proof.
  split_and!; eexists _, _;
    (split; [apply single_alias_session; [vm_compute | ]; reflexivity |]);
    by split_and!.
Qed.

Lemma drainable_same_heap w w' a : heap w' = heap w -> drainable w a -> drainable w' a.
Proof. intros Hh (m & Hd). exists m. by rewrite Hh. Qed.



(** ** Samples within a run *)

Lemma view_sublist E n m buf : buf `sublist_of` view E n m buf.
Proof.
  unfold view. destruct (process m) as [[]|]; [| done | done].
  by apply sublist_inserts_r.
Qed.

Lemma fetch_in_sync E a w m :
  heap w !! a = Some m -> in_sync w a ->
  exists w' m',
    fetch E a w = Ok tt w' /\ heap w' !! a = Some m' /\ in_sync w' a /\
    data m `sublist_of` data m'.
Proof.
  intros H (m0 & buf & p & q & pr & H0 & Hb & Hp & Hq & Hpr & Hsub).
  assert (m0 = m) as -> by congruence.
  pose proof (lookup_lt_Some _ _ _ H) as Ha.
  assert (data m `sublist_of` view E (now w) m buf) as Hsnap.
  { etrans; [exact Hsub | apply view_sublist]. }
  destruct (fetch_returns_at E a w m buf p H Hb Hp) as (stamps & _ & Hf).
  { by apply sublist_length. }
  eexists _, (fetched E (now w) m buf stamps).
  split; [exact Hf |]. split; [by apply lookup_put |]. split.
  - exists (fetched E (now w) m buf stamps),
      (view E (now w + 4) m (view E (now w) m buf) ++ [fetch_point E (now w) m]),
      (clock E (now w + 5)), q, pr.
    split; [by apply lookup_put |]. split_and!; try done.
    cbn. apply sublist_app; [apply view_sublist | done].
  - cbn. by apply sublist_inserts_r.
Qed.

Lemma stop_in_sync E a w m :
  heap w !! a = Some m -> in_sync w a ->
  exists w' m',
    stop E a w = Ok tt w' /\ heap w' !! a = Some m' /\ in_sync w' a /\
    data m `sublist_of` data m'.
Proof.
  intros H (m0 & buf & p & q & pr & H0 & Hb & Hp & Hq & Hpr & Hsub).
  assert (m0 = m) as -> by congruence.
  pose proof (lookup_lt_Some _ _ _ H) as Ha.
  eexists _, (stopped E (now w) m q). split.
  { rewrite (at_put (stop E a) w a m H). by apply (stop_put E _ _ _ _ m q pr buf). }
  split; [by apply lookup_put |]. split; [| done].
  exists (stopped E (now w) m q), (view E (now w) m buf), p, (q ++ [true]), false.
  split; [by apply lookup_put |]. split_and!; try done.
  - cbn. by rewrite Hb.
  - cbn. etrans; [exact Hsub | apply view_sublist].
Qed.



(** ** The metric functions *)

(** X14. For non-negative counters of the process, the readings of
    [RSSMonitor], [VMSMonitor] and [USSMonitor] are non-negative numbers,
    the last two in gigabytes; with no process id given they are those of
    the calling process. *)
Theorem process_memory_readings E pid kw r :
  (0 <= memory_info_rss r (Process E pid))%Z ->
  (0 <= memory_info_vms r (Process E pid))%Z ->
  (0 <= memory_full_info_uss r (Process E pid))%Z ->
  (exists q, RSSMonitor_get_usage E pid kw r = Num q /\ (0 <= q)%Q) /\
  (exists q, VMSMonitor_get_usage E pid kw r = Num q /\ (0 <= q)%Q /\
     (q * inject_Z (1024 ^ 3) == inject_Z (memory_info_vms r (Process E pid)))%Q) /\
  (exists q, USSMonitor_get_usage E pid kw r = Num q /\ (0 <= q)%Q /\
     (q * inject_Z (1024 ^ 3) == inject_Z (memory_full_info_uss r (Process E pid)))%Q) /\
  RSSMonitor_get_usage E None kw r = RSSMonitor_get_usage E (Some (getpid E)) kw r /\
  VMSMonitor_get_usage E None kw r = VMSMonitor_get_usage E (Some (getpid E)) kw r /\
  USSMonitor_get_usage E None kw r = USSMonitor_get_usage E (Some (getpid E)) kw r.
Proof.
  intros Hrss Hvms Huss.
  assert (forall b c : Z, (0 <= b)%Z -> (0 < c)%Z -> (0 <= inject_Z b / inject_Z c)%Q)
    as Hdiv.
  { intros b c Hb Hc. apply Qle_shift_div_l.
    - change 0%Q with (inject_Z 0). by rewrite <- Zlt_Qlt.
    - rewrite Qmult_0_l. change 0%Q with (inject_Z 0). by rewrite <- Zle_Qle. }
  split_and!; try reflexivity.
  - eexists. split; [reflexivity |]. by apply Hdiv.
  - eexists. split; [reflexivity |]. split; [by apply Hdiv |].
    field. by intros [=].
  - eexists. split; [reflexivity |]. split; [by apply Hdiv |].
    field. by intros [=].
Qed.

Lemma process_memory_readings_witness :
  exists q, RSSMonitor_get_usage E_busy None None (os_demo 3) = Num q /\ (0 <= q)%Q.
Proof.
  destruct (process_memory_readings E_busy None None (os_demo 3)) as ((q & Hq) & _);
    [simpl; lia | simpl; lia | simpl; lia |].
  by exists q.
Defined.

(** ** The registry as the inverse of the table *)

Lemma foldl_insert_lookup (l : list (string * MonitorClass)) :
  forall (d : gmap string MonitorClass) k v,
    NoDup (fst <$> l) ->
    foldl (fun d '(alias, monitor) => <[alias := monitor]> d) d l !! k = Some v
    <-> (k, v) ∈ l \/ (~ (k ∈ fst <$> l) /\ d !! k = Some v).
Proof.
  induction l as [|[k0 v0] l IH]; intros d k v Hnd; simpl.
  - split; [intros H; right; split; [apply not_elem_of_nil | done] |].
    intros [H | [_ H]]; [by apply elem_of_nil in H | done].
  - apply NoDup_cons in Hnd as [Hk0 Hnd]. rewrite (IH _ k v Hnd). split.
    + intros [Hin | [Hnotin Hlook]].
      * left. by apply elem_of_cons; right.
      * destruct (decide (k0 = k)) as [-> | Hne].
        -- rewrite lookup_insert_eq in Hlook. injection Hlook as ->.
           left. by apply elem_of_cons; left.
        -- rewrite lookup_insert_ne in Hlook by done. right. split; [| done].
           intros [-> | ?]%elem_of_cons; done.
    + intros [[[= -> ->] | Hin]%elem_of_cons | [Hnotin Hlook]].
      * right. split; [done | by rewrite lookup_insert_eq].
      * by left.
      * right. apply not_elem_of_cons in Hnotin as [Hne Hnotin].
        split; [done |]. by rewrite lookup_insert_ne.
Qed.

Lemma alias_pairs_keys (table : list (MonitorClass * list string)) :
  fst <$> (flat_map (fun '(monitor, aliases) => map (fun alias => (alias, monitor)) aliases)
     table)
  = concat (snd <$> table).
Proof.
  induction table as [|[c al] table IH]; [done |]. simpl.
  rewrite fmap_app, IH. f_equal.
  induction al as [|x al IHal]; [done |]. simpl. by f_equal.
Qed.

Lemma alias_pairs_elem (table : list (MonitorClass * list string)) s c :
  (s, c) ∈ flat_map (fun '(monitor, aliases) => map (fun alias => (alias, monitor)) aliases)
             table
  <-> exists aliases, (c, aliases) ∈ table /\ s ∈ aliases.
Proof.
  rewrite list_elem_of_In, in_flat_map. split.
  - intros ([c' al] & Hin & Hmap). apply in_map_iff in Hmap as (x & [= -> ->] & Hx).
    exists al. by rewrite !list_elem_of_In.
  - intros (al & Hin & Hs). exists (c, al). rewrite <- list_elem_of_In. split; [done |].
    apply in_map_iff. exists s. by rewrite <- list_elem_of_In.
Qed.

(** X15. The registry is the table of aliases by class read the other way
    round: when no alias stands twice in the table, a name is looked up to a
    class if and only if the table has it among the aliases of that class;
    and the registry of the module is built so from its table. *)
Theorem invert_aliases_lookup table s c :
  NoDup (concat (snd <$> table)) ->
  MONITOR_ALIASES = invert_aliases MONITOR_ALIASES_by_class /\
  (invert_aliases table !! s = Some c
   <-> exists aliases, (c, aliases) ∈ table /\ s ∈ aliases).
Proof.
  intros Hnd. split; [reflexivity |].
  unfold invert_aliases. rewrite foldl_insert_lookup by (by rewrite alias_pairs_keys).
  rewrite alias_pairs_elem. split; [| by left].
  intros [H | [_ H]]; [done |]. by rewrite lookup_empty in H.
Qed.

Lemma invert_aliases_lookup_witness :
  MONITOR_ALIASES !! "swap" = None /\
  (MONITOR_ALIASES !! "vms" = Some VMSMonitor
   <-> exists aliases, (VMSMonitor, aliases) ∈ MONITOR_ALIASES_by_class /\ "vms" ∈ aliases).
Proof.
  assert (NoDup (concat (snd <$> MONITOR_ALIASES_by_class))) as Hnd.
  { apply (bool_decide_unpack _). vm_compute. reflexivity. }
  split; [vm_compute; reflexivity |].
  destruct (invert_aliases_lookup MONITOR_ALIASES_by_class "vms" VMSMonitor Hnd) as [Heq H].
  rewrite Heq. exact H.
Defined.

(** ** The sampler loop, further *)

Lemma endless_repeat_turn_at env period fuel k buf log :
  queue_empty env k = true ->
  (forall e, attempt env k = Failed e -> caught e = true) ->
  endless_repeat env period (S fuel) k buf log
  = endless_repeat env period fuel (k + 1) (buf ++ appended env k)
      (log ++ iteration env period k).
Proof.
  intros Hq Hc. cbn [endless_repeat]. rewrite Hq.
  unfold appended, iteration.
  destruct (attempt env k) as [x | e] eqn:Ha; [done |].
  by rewrite (Hc e eq_refl), app_nil_r.
Qed.

Lemma endless_repeat_propagates_from env period n e :
  forall k buf log fuel,
    (forall i, k <= i < k + n ->
       queue_empty env i = true /\
       forall e', attempt env i = Failed e' -> caught e' = true) ->
    queue_empty env (k + n) = true ->
    attempt env (k + n) = Failed e ->
    caught e = false ->
    n < fuel ->
    endless_repeat env period fuel k buf log
    = {| exit := Propagated e;
         buffer := buf ++ flat_map (appended env) (seq k n);
         events := log ++ flat_map (iteration env period) (seq k n) ++ [Poll true] |}.
Proof.
  induction n as [|n IH]; intros k buf log fuel Hbefore Hq Ha Hc Hfuel.
  - destruct fuel as [|fuel]; [lia |]. cbn [endless_repeat].
    rewrite Nat.add_0_r in Hq, Ha. rewrite Hq, Ha, Hc. simpl. by rewrite app_nil_r.
  - destruct fuel as [|fuel]; [lia |].
    destruct (Hbefore k) as [Hqk Hck]; [lia |].
    rewrite endless_repeat_turn_at by done.
    rewrite (IH (k + 1)); [| intros i Hi; apply Hbefore; lia | | | done | lia].
    + replace (k + 1) with (S k) by lia. simpl. by rewrite <- !app_assoc.
    + by replace (k + 1 + n) with (k + S n) by lia.
    + by replace (k + 1 + n) with (k + S n) by lia.
Qed.


(** X17. The sampler only ever appends: whatever it meets and however long
    it runs, the shared list it started with is the beginning of the list it
    has, and so is its log. *)
Theorem endless_repeat_append_only env period fuel :
  forall k buf log,
    buf `prefix_of` buffer (endless_repeat env period fuel k buf log) /\
    log `prefix_of` events (endless_repeat env period fuel k buf log).
Proof.
  induction fuel as [|fuel IH]; intros k buf log; [done |].
  cbn [endless_repeat].
  destruct (queue_empty env k); [| split; [done | by apply prefix_app_r]].
  destruct (attempt env k) as [x | e].
  - destruct (IH (k + 1) (buf ++ [x]) (log ++ [Poll true; Append x; Sleep period]))
      as [Hb Hl].
    split; (etrans; [| eassumption]); by apply prefix_app_r.
  - destruct (caught e); [| split; [done | by apply prefix_app_r]].
    destruct (IH (k + 1) buf (log ++ [Poll true; Swallow e; Sleep period])) as [Hb Hl].
    split; [done |]. etrans; [| eassumption]. by apply prefix_app_r.
Qed.


(** ** [visualize] *)

Lemma for_each_keeps_if {A} (f : A -> M unit) (P : World -> Prop) (Q : A -> Prop) xs :
  (forall x w, Q x -> P w -> P (world_of (f x w))) ->
  Forall Q xs ->
  forall w, P w -> P (world_of (for_each xs f w)).
Proof.
  intros Hstep Hall. induction Hall as [|x xs Hx Hxs IH]; intros w Hw; [done |].
  rewrite for_each_cons. specialize (Hstep x w Hx Hw).
  destruct (f x w) as [[] w' | e w']; simpl in Hstep; [by apply IH | done].
Qed.

(** X18. Until the first [fetch] there is nothing to plot: on a new
    monitor, after any calls of [start] and [stop], [visualize] raises
    [IndexError] at [self.ticks[0]]. *)
Theorem visualize_before_fetch E a cs w :
  new_monitor w a ->
  Forall (fun c => is_fetch c = false) cs ->
  exists m',
    monitor_of a (for_each cs (call E a) w) = Some m' /\
    visualize m' = inl Plot_IndexError.
Proof.
  intros (m & H & _ & Ht) Hcs.
  destruct (for_each_keeps_if (call E a)
              (fun w' => exists m', heap w' !! a = Some m' /\ ticks m' = [])
              (fun c => is_fetch c = false) cs) with (w := w) as (m' & Hm' & Ht');
    [| done | by exists m |].
  - clear. intros c w Hc (m & H & Ht).
    pose proof (lookup_lt_Some _ _ _ H) as Ha.
    destruct c as [| | |d]; simpl; [| done | |].
    + rewrite (start_at E a w m H). simpl.
      exists (started E (now w) m). split; [by apply list_lookup_insert_eq | done].
    + destruct (stop_effect E a w m H) as (m' & Hh & _ & Ht' & _).
      exists m'. split; [rewrite Hh; by apply list_lookup_insert_eq | congruence].
    + by exists m.
  - exists m'. split; [done |]. unfold visualize. by rewrite Ht'.
Qed.

Lemma visualize_before_fetch_witness :
  exists m',
    monitor_of 0 (for_each [CStart; CIdle 4; CStop] (call E_busy 0)
                    {| now := 0; heap := [m_fresh]; trace := [] |}) = Some m' /\
    visualize m' = inl Plot_IndexError.
Proof.
  apply (visualize_before_fetch E_busy 0 [CStart; CIdle 4; CStop]
           {| now := 0; heap := [m_fresh]; trace := [] |}).
  - by exists m_fresh.
  - repeat constructor.
Defined.

Lemma StronglySorted_shift t0 l :
  StronglySorted Qle l -> StronglySorted Qle (map (fun t => t - t0)%Q l).
Proof.
  induction 1 as [|x l Hs IH Hx]; simpl; constructor; [done |].
  apply Forall_forall. intros y Hy.
  apply list_elem_of_In, in_map_iff in Hy as (z & <- & Hz).
  rewrite Forall_forall in Hx. apply list_elem_of_In, Hx in Hz. Lqa.lra.
Qed.

(** X19. With ticks in order, as many of them as samples, and a class that
    has a [UNIT], [visualize] plots the samples against the time since the
    first tick: the abscissas start at 0, are nowhere negative and are in
    order, and the figure bears the name of the class and its [UNIT]. *)
Theorem visualize_figure m t0 ts :
  ticks m = t0 :: ts ->
  Sorted Qle (ticks m) ->
  length (ticks m) = length (data m) ->
  cls m ≠ PlainMonitor ->
  exists f x0 xs,
    visualize m = inr f /\
    plot_x f = x0 :: xs /\ (x0 == 0)%Q /\
    Forall (fun x => 0 <= x)%Q (plot_x f) /\
    Sorted Qle (plot_x f) /\
    plot_x f = map (fun t => t - t0)%Q (ticks m) /\
    plot_y f = data m /\
    title f = class_name (cls m) /\
    UNIT (cls m) = Some (ylabel f).
Proof.
  intros Ht Hsorted Hlen Hcls.
  assert (exists u, UNIT (cls m) = Some u) as [u Hu] by (destruct (cls m); by eauto).
  assert (visualize m
          = inr {| plot_x := map (fun t => t - t0)%Q (ticks m); plot_y := data m;
                   title := class_name (cls m); xlabel := "Time, s"; ylabel := u |})
    as Hv.
  { unfold visualize. rewrite Ht at 1. simpl. rewrite length_map, Hlen, Nat.eqb_refl.
    by rewrite Hu. }
  apply Sorted_StronglySorted in Hsorted; [| apply _].
  pose proof (StronglySorted_shift t0 _ Hsorted) as Hshift.
  eexists _, (t0 - t0)%Q, (map (fun t => t - t0)%Q ts).
  split; [exact Hv |]. simpl. split_and!; try done.
  - by rewrite Ht.
  - Lqa.lra.
  - rewrite Ht in Hshift |- *. simpl in *.
    apply StronglySorted_cons in Hshift as [Hall _].
    constructor; [Lqa.lra |].
    eapply Forall_impl; [exact Hall |]. intros x Hx. simpl in Hx. Lqa.lra.
  - by apply StronglySorted_Sorted.
Qed.

Lemma visualize_figure_witness :
  exists f,
    visualize (fetched E_busy 1 (started E_busy 0 m_fresh) [] [inject_Z 0]) = inr f /\
    plot_x f = [inject_Z 0 - inject_Z 0; inject_Z 4 - inject_Z 0]%Q /\
    ylabel f = "Gb".
Proof.
  destruct (visualize_figure (fetched E_busy 1 (started E_busy 0 m_fresh) [] [inject_Z 0])
              (inject_Z 0) [inject_Z 4])
    as (f & x0 & xs & Hv & _ & _ & _ & _ & Hx & _ & _ & Hu).
  - reflexivity.
  - repeat constructor. simpl. rewrite <- Zle_Qle. lia.
  - reflexivity.
  - done.
  - exists f. split_and!; [exact Hv | exact Hx |].
    simpl in Hu. by injection Hu as <-.
Defined.
